(** * skeema: the statement-aware SQL file editor (internal/fs/sqlfile.go)

    A shallow embedding of [SQLFile] and of its operations, and the
    properties of the specification that are settled on it.

    Go values are represented as follows.
    - A Go [string] is a byte sequence: Rocq's [string] (one [ascii] per
      byte).  [len] is [String.length].
    - [*tengo.Statement] is a [ptr]: [nil] or an address [loc] in a heap
      [gmap loc Statement].  Reading or writing through [nil] panics.  Two
      slice entries are the same object exactly when they hold the same
      address.
    - [[]*tengo.Statement] is a [list ptr].  The slice is owned by the
      [SQLFile], so re-slicing, [append], [copy] and indexed assignment are
      operations on that list.
    - A method with receiver [sqlFile *SQLFile] is an action of the monad [M]
      over a [World]: the heap of statements, the file and the log of file
      system calls made so far.  A Go panic is the result [Panic]. *)

From Stdlib Require Import ZArith String Ascii List Lia.
From stdpp Require Import base gmap strings list fin_maps.

Local Open Scope string_scope.
Local Open Scope list_scope.
Local Open Scope nat_scope.

(** * Part I: the program *)

(** ** tengo.Statement *)

(** Modelled from the spec: the declaration of tengo.StatementType, which
    is in package internal/tengo.  Section 3 of the specification lists
    Noop, Command and the data/DDL statements; sqlfile.go only ever compares
    with the first two, so the others are one constructor. *)
Inductive StatementType : Type :=
  | StatementTypeNoop
  | StatementTypeCommand
  | StatementTypeOther.

#[global] Instance StatementType_eq_dec : EqDecision StatementType.
Proof. solve_decision. Defined.

(** Modelled from the spec: the declaration of tengo.Statement, with the
    fields that sqlfile.go reads or writes. *)
Record Statement : Type := mkStatement {
  File : string;
  Text : string;
  Type_ : StatementType;
  Delimiter : string;
  DefaultDatabase : string;
  Compound : bool
}.

Definition set_File (v : string) (s : Statement) : Statement :=
  mkStatement v (Text s) (Type_ s) (Delimiter s) (DefaultDatabase s) (Compound s).

Definition set_Text (v : string) (s : Statement) : Statement :=
  mkStatement (File s) v (Type_ s) (Delimiter s) (DefaultDatabase s) (Compound s).

Definition set_Delimiter (v : string) (s : Statement) : Statement :=
  mkStatement (File s) (Text s) (Type_ s) v (DefaultDatabase s) (Compound s).

Definition set_DefaultDatabase (v : string) (s : Statement) : Statement :=
  mkStatement (File s) (Text s) (Type_ s) (Delimiter s) v (Compound s).

Definition set_Compound (v : bool) (s : Statement) : Statement :=
  mkStatement (File s) (Text s) (Type_ s) (Delimiter s) (DefaultDatabase s) v.

(** The methods of tengo.Statement that sqlfile.go calls.  Their bodies are
    in internal/tengo; the editor is verified for every implementation. *)
Class StatementMethods : Type := {
  (** Modelled from the spec: tengo.Statement.SplitTextBody, which "splits a
      statement's text into (semantic body, trailing footer)". *)
  SplitTextBody : Statement → string * string;
  (** Modelled from the spec: tengo.Statement.NormalizeTrailer, which
      "rewrites a statement's text so it ends in exactly its delimiter
      followed by one newline"; [normalizedText] is the rewritten text, no
      other field is touched. *)
  normalizedText : Statement → string;
  (** Modelled from the spec: tengo.Statement.Location, a "human-readable
      identifier for diagnostics". *)
  Location : Statement → string
}.

(** ** The heap, the file and the monad *)

Definition loc : Type := positive.

(** A Go pointer to a statement. *)
Definition ptr : Type := option loc.

Definition nil : ptr := None.

(** type SQLFile struct *)
Record SQLFile : Type := mkSQLFile {
  FilePath : string;
  Statements : list ptr;
  Dirty : bool
}.

(** A Go [error] value: one returned by package os, for which
    [os.IsNotExist] may hold, or one built by [fmt.Errorf] without [%w]. *)
Inductive error : Type :=
  | OSError (msg : string) (notExist : bool)
  | FmtError (msg : string).

(** [err.Error()], which is also what the verb [%v] prints. *)
Definition Error (e : error) : string :=
  match e with
  | OSError msg _ => msg
  | FmtError msg => msg
  end.

Definition os_IsNotExist (e : error) : bool :=
  match e with
  | OSError _ b => b
  | FmtError _ => false
  end.

(** What [os.SameFile] looks at in an [os.FileInfo] returned by [os.Stat]:
    the device and the inode. *)
Record FileInfo : Type := mkFileInfo {
  dev : Z;
  ino : Z
}.

Definition os_SameFile (fi1 fi2 : FileInfo) : bool :=
  bool_decide (dev fi1 = dev fi2) && bool_decide (ino fi1 = ino fi2).

(** The operating system, as the answers it gives to the calls of package
    os.  Every answer is possible: the properties below hold for each [OS]. *)
Record OS : Type := mkOS {
  statResult : string → FileInfo + error;
  writeFileResult : string → string → Z → option error;
  removeResult : string → option error
}.

(** The calls of package os that change the disk. *)
Inductive SysCall : Type :=
  | SysWriteFile (name data : string) (perm : Z)
  | SysRemove (name : string).

Record World : Type := mkWorld {
  heap : gmap loc Statement;
  sqlFile : SQLFile;
  syscalls : list SysCall
}.

Inductive result (A : Type) : Type :=
  | Ok (a : A)
  | Panic (msg : string).

Arguments Ok {A} a.
Arguments Panic {A} msg.

Definition M (A : Type) : Type := World → result (A * World).

#[global] Instance M_ret : MRet M := λ A a w, Ok (a, w).

#[global] Instance M_bind : MBind M := λ A B f m w,
  match m w with
  | Ok (a, w') => f a w'
  | Panic msg => Panic msg
  end.

Definition panic {A : Type} (msg : string) : M A := λ _, Panic msg.

Definition nilDereference : string :=
  "runtime error: invalid memory address or nil pointer dereference".

(** The object that [p] points to in the heap [h], if any. *)
Definition load (h : gmap loc Statement) (p : ptr) : option Statement :=
  match p with
  | Some a => h !! a
  | None => None
  end.

(** [*p] as a value. *)
Definition deref (p : ptr) : M Statement := λ w,
  match load (heap w) p with
  | Some s => Ok (s, w)
  | None => Panic nilDereference
  end.

(** [p.field = v], as an update [f] of the statement at [p]. *)
Definition modify (p : ptr) (f : Statement → Statement) : M unit := λ w,
  match p with
  | Some a =>
      match heap w !! a with
      | Some s =>
          Ok (tt, mkWorld (<[a := f s]> (heap w)) (sqlFile w) (syscalls w))
      | None => Panic nilDereference
      end
  | None => Panic nilDereference
  end.

(** [&tengo.Statement{...}]: a new object at an address not in use. *)
Definition alloc (s : Statement) : M ptr := λ w,
  let a := fresh (dom (heap w)) in
  Ok (Some a, mkWorld (<[a := s]> (heap w)) (sqlFile w) (syscalls w)).

Definition getFile : M SQLFile := λ w, Ok (sqlFile w, w).

Definition setStatements (l : list ptr) : M unit := λ w,
  Ok (tt, mkWorld (heap w)
                  (mkSQLFile (FilePath (sqlFile w)) l (Dirty (sqlFile w)))
                  (syscalls w)).

Definition setDirty (d : bool) : M unit := λ w,
  Ok (tt, mkWorld (heap w)
                  (mkSQLFile (FilePath (sqlFile w)) (Statements (sqlFile w)) d)
                  (syscalls w)).

(** [os.WriteFile(name, data, perm)] and [os.Remove(name)]: the call is
    logged and the operating system answers. *)
Definition os_WriteFile (os : OS) (name data : string) (perm : Z)
  : M (option error) := λ w,
  Ok (writeFileResult os name data perm,
      mkWorld (heap w) (sqlFile w) (syscalls w ++ [SysWriteFile name data perm])).

Definition os_Remove (os : OS) (name : string) : M (option error) := λ w,
  Ok (removeResult os name,
      mkWorld (heap w) (sqlFile w) (syscalls w ++ [SysRemove name])).

(** The run-time check of an index or slice expression, which panics when
    the index is out of range. *)
Definition boundsCheck (inRange : bool) : M unit :=
  if inRange then mret tt else panic "runtime error: index out of range".

(** [copy(dst[off:], src)]: the elements of [src] overwrite [dst] from
    position [off], as many as fit; the length of [dst] does not change. *)
Definition copyInto {A : Type} (off : nat) (src dst : list A) : list A :=
  take off dst ++ take (length dst - off) src ++ drop (off + length src) dst.

Definition nl : string := String "010" "".

(** The permission bits [0666] of [Write], in decimal. *)
Definition perm0666 : Z := 438.

(** [sqlFile.Statements = append(sqlFile.Statements, p)] *)
Definition appendStatement (p : ptr) : M unit :=
  f ← getFile; setStatements (Statements f ++ [p]).

(** ** sqlfile.go: the editor *)

Section Editor.
Context {SM : StatementMethods}.

(** [stmt.NormalizeTrailer()] *)
Definition NormalizeTrailer (p : ptr) : M unit :=
  modify p (λ s, set_Text (normalizedText s) s).

(** The composite literal of [makeDelimiterCommand]; the fields it does not
    name have their zero value. *)
Definition delimiterCommand (newDelimiter defaultDatabase filePath : string)
  : Statement :=
  {| File := filePath;
     Text := "DELIMITER " +:+ newDelimiter +:+ nl;
     Type_ := StatementTypeCommand;
     Delimiter := String "000" "";
     DefaultDatabase := defaultDatabase;
     Compound := false |}.

Definition makeDelimiterCommand (newDelimiter defaultDatabase filePath : string)
  : M ptr :=
  alloc (delimiterCommand newDelimiter defaultDatabase filePath).

(** The pruning loop of [AddStatement]:
    [for len(ss) > 0 && ss[len(ss)-1].Type == Command { ss = ss[:len(ss)-1] }].
    [rl] is the slice read from its end, so each iteration looks at the head
    of [rl] and drops it. *)
Fixpoint pruneLoop (h : gmap loc Statement) (rl : list ptr)
  : result (list ptr) :=
  match rl with
  | [] => Ok []
  | p :: rest =>
      match load h p with
      | None => Panic nilDereference
      | Some s =>
          if decide (Type_ s = StatementTypeCommand)
          then pruneLoop h rest
          else Ok rl
      end
  end.

Definition pruneTrailingCommands : M unit := λ w,
  match pruneLoop (heap w) (reverse (Statements (sqlFile w))) with
  | Ok rl => setStatements (reverse rl) w
  | Panic msg => Panic msg
  end.

(** func (sqlFile *SQLFile) AddStatement(stmt *tengo.Statement) *)
Definition AddStatement (stmt : ptr) : M unit :=
  pruneTrailingCommands;;
  f ← getFile;
  '(currentDelimiter, defaultDatabase) ←
    match last (Statements f) with
    | Some lastStmt =>
        l ← deref lastStmt;
        NormalizeTrailer lastStmt;;
        mret (Delimiter l, DefaultDatabase l)
    | None => mret (";", "")
    end;
  s ← deref stmt;
  currentDelimiter ←
    (if Compound s && bool_decide (currentDelimiter = ";") then
       c ← makeDelimiterCommand "//" defaultDatabase (FilePath f);
       appendStatement c;;
       mret "//"
     else if negb (Compound s) && bool_decide (currentDelimiter ≠ ";") then
       c ← makeDelimiterCommand ";" defaultDatabase (FilePath f);
       appendStatement c;;
       mret ";"
     else mret currentDelimiter);
  modify stmt (set_File (FilePath f));;
  modify stmt (set_DefaultDatabase defaultDatabase);;
  modify stmt (set_Delimiter currentDelimiter);;
  NormalizeTrailer stmt;;
  appendStatement stmt;;
  (if bool_decide (currentDelimiter ≠ ";") then
     c ← makeDelimiterCommand ";" defaultDatabase (FilePath f);
     appendStatement c
   else mret tt);;
  setDirty true.

(** The position of the first entry of [l] that is the pointer [stmt]. *)
Fixpoint indexOf (stmt : ptr) (l : list ptr) : option nat :=
  match l with
  | [] => None
  | p :: rest =>
      if decide (p = stmt) then Some 0 else S <$> indexOf stmt rest
  end.

(** func (sqlFile *SQLFile) statementIndex(stmt *tengo.Statement) int *)
Definition statementIndex (stmt : ptr) : M nat :=
  f ← getFile;
  match indexOf stmt (Statements f) with
  | Some n => mret n
  | None =>
      s ← deref stmt;
      panic ("Statement previously at " +:+ Location s
             +:+ " not actually found in file")
  end.

(** func (sqlFile *SQLFile) EditStatementText(stmt, newText, compound) *)
Definition EditStatementText (stmt : ptr) (newText : string) (compound : bool)
  : M unit :=
  setDirty true;;
  i ← statementIndex stmt;
  s ← deref stmt;
  if bool_decide (Delimiter s ≠ ";") || negb compound then
    let '(_, oldFooter) := SplitTextBody s in
    modify stmt (set_Text (newText +:+ oldFooter));;
    modify stmt (set_Compound compound)
  else
    f ← getFile;
    let newStatements := replicate (length (Statements f) + 2) nil in
    boundsCheck (bool_decide (i ≤ length (Statements f))%nat);;
    let newStatements := copyInto 0 (take i (Statements f)) newStatements in
    c ← makeDelimiterCommand "//" (DefaultDatabase s) (FilePath f);
    boundsCheck (bool_decide (i < length newStatements)%nat);;
    let newStatements := <[i := c]> newStatements in
    modify stmt (set_Delimiter "//");;
    modify stmt (set_Text (newText +:+ "//" +:+ nl));;
    modify stmt (set_Compound compound);;
    boundsCheck (bool_decide (i + 1 < length newStatements)%nat);;
    let newStatements := <[i + 1 := stmt]> newStatements in
    s ← deref stmt;
    c ← makeDelimiterCommand ";" (DefaultDatabase s) (FilePath f);
    boundsCheck (bool_decide (i + 2 < length newStatements)%nat);;
    let newStatements := <[i + 2 := c]> newStatements in
    boundsCheck (bool_decide (i + 3 ≤ length newStatements)%nat);;
    boundsCheck (bool_decide (i + 1 ≤ length (Statements f))%nat);;
    let newStatements :=
      copyInto (i + 3) (drop (i + 1) (Statements f)) newStatements in
    setStatements newStatements.

(** func (sqlFile *SQLFile) RemoveStatement(stmt *tengo.Statement) *)
Definition RemoveStatement (stmt : ptr) : M unit :=
  i ← statementIndex stmt;
  setDirty true;;
  f ← getFile;
  let ss := Statements f in
  boundsCheck (bool_decide (i ≤ length ss)%nat);;
  boundsCheck (bool_decide (i + 1 ≤ length ss)%nat);;
  let ss1 := copyInto i (drop (i + 1) ss) ss in
  boundsCheck (bool_decide (0 < length ss1)%nat);;
  let ss2 := <[length ss1 - 1 := nil]> ss1 in
  setStatements (take (length ss2 - 1) ss2).

(** func (sqlFile *SQLFile) Delete() error *)
Definition Delete (os : OS) : M (option error) :=
  f ← getFile; os_Remove os (FilePath f).

(** The loop of [Write]: [b] is the buffer, [keepFile] the flag. *)
Fixpoint writeLoop (l : list ptr) (b : string) (keepFile : bool)
  : M (string * bool) :=
  match l with
  | [] => mret (b, keepFile)
  | stmt :: rest =>
      s ← deref stmt;
      let b := b +:+ Text s in
      let keepFile :=
        if bool_decide (Type_ s ≠ StatementTypeNoop)
           && bool_decide (Type_ s ≠ StatementTypeCommand)
        then true else keepFile in
      writeLoop rest b keepFile
  end.

(** func (sqlFile *SQLFile) Write() (n int, err error) *)
Definition Write (os : OS) : M (Z * option error) :=
  f ← getFile;
  '(b, keepFile) ← writeLoop (Statements f) "" false;
  '(n, err) ←
    (if keepFile : bool then
       err ← os_WriteFile os (FilePath f) b perm0666;
       mret (Z.of_nat (String.length b), err)
     else
       err ← Delete os;
       mret (0%Z, err));
  (if err is None then setDirty false else mret tt);;
  mret (n, err).

End Editor.

(** ** Runes and UTF-8

    [strings.Map] and [range] read a string rune by rune; a byte that does
    not start a well-formed UTF-8 sequence is read as [RuneError] of width
    1.  [strings.Map] writes each mapped rune in UTF-8. *)

Definition rune : Type := Z.

Definition RuneError : rune := 65533%Z.

Definition byteOf (c : ascii) : Z := Z.of_N (N_of_ascii c).

Definition asciiOf (b : Z) : ascii := ascii_of_N (Z.to_N b).

Definition runeOf (c : ascii) : rune := byteOf c.

Definition inRange (lo hi b : Z) : bool := ((lo <=? b) && (b <=? hi))%Z.

(** The bounds of the second byte of a sequence that starts with [b0]. *)
Definition acceptRange (b0 : Z) : Z * Z :=
  (if b0 =? 224 then (160, 191)
   else if b0 =? 237 then (128, 159)
   else if b0 =? 240 then (144, 191)
   else if b0 =? 244 then (128, 143)
   else (128, 191))%Z.

Definition isCont (b : Z) : bool := inRange 128 191 b.

(** utf8.DecodeRuneInString: the first rune of [s] and its width in bytes. *)
Definition DecodeRuneInString (s : string) : rune * nat :=
  match s with
  | EmptyString => (RuneError, 0)
  | String c0 s1 =>
      let b0 := byteOf c0 in
      if (b0 <? 128)%Z then (b0, 1)
      else
        let '(lo, hi) := acceptRange b0 in
        match s1 with
        | EmptyString => (RuneError, 1)
        | String c1 s2 =>
            let b1 := byteOf c1 in
            if negb (inRange lo hi b1) then (RuneError, 1)
            else if inRange 194 223 b0 then
              (Z.lor (Z.shiftl (Z.land b0 31) 6) (Z.land b1 63), 2)
            else
              match s2 with
              | EmptyString => (RuneError, 1)
              | String c2 s3 =>
                  let b2 := byteOf c2 in
                  if negb (isCont b2) then (RuneError, 1)
                  else if inRange 224 239 b0 then
                    (Z.lor (Z.lor (Z.shiftl (Z.land b0 15) 12)
                                  (Z.shiftl (Z.land b1 63) 6))
                           (Z.land b2 63), 3)
                  else
                    match s3 with
                    | EmptyString => (RuneError, 1)
                    | String c3 _ =>
                        let b3 := byteOf c3 in
                        if negb (isCont b3) then (RuneError, 1)
                        else if inRange 240 244 b0 then
                          (Z.lor (Z.lor (Z.lor (Z.shiftl (Z.land b0 7) 18)
                                               (Z.shiftl (Z.land b1 63) 12))
                                        (Z.shiftl (Z.land b2 63) 6))
                                 (Z.land b3 63), 4)
                        else (RuneError, 1)
                    end
              end
        end
  end.

(** [for _, c := range s]: the runes of [s].  [skip] counts the bytes of the
    current rune that are still to be passed over. *)
Fixpoint rangeRunes (skip : nat) (s : string) : list rune :=
  match s with
  | EmptyString => []
  | String _ rest =>
      match skip with
      | S k => rangeRunes k rest
      | O =>
          let '(r, width) := DecodeRuneInString s in
          r :: rangeRunes (width - 1) rest
      end
  end.

Definition runes (s : string) : list rune := rangeRunes 0 s.

(** utf8.AppendRune: the UTF-8 encoding of [r]; a rune out of range or a
    surrogate is written as [RuneError]. *)
Definition encode3 (r : rune) : list ascii :=
  [asciiOf (Z.lor 224 (Z.shiftr r 12));
   asciiOf (Z.lor 128 (Z.land (Z.shiftr r 6) 63));
   asciiOf (Z.lor 128 (Z.land r 63))].

Definition AppendRune (r : rune) : list ascii :=
  (if (0 <=? r) && (r <=? 127) then [asciiOf r]
   else if (0 <=? r) && (r <=? 2047) then
     [asciiOf (Z.lor 192 (Z.shiftr r 6));
      asciiOf (Z.lor 128 (Z.land r 63))]
   else if (r <? 0) || (1114111 <? r) || ((55296 <=? r) && (r <=? 57343)) then
     encode3 RuneError
   else if r <=? 65535 then encode3 r
   else
     [asciiOf (Z.lor 240 (Z.shiftr r 18));
      asciiOf (Z.lor 128 (Z.land (Z.shiftr r 12) 63));
      asciiOf (Z.lor 128 (Z.land (Z.shiftr r 6) 63));
      asciiOf (Z.lor 128 (Z.land r 63))])%Z.

Definition encodeRunes (rs : list rune) : string :=
  string_of_list_ascii (concat (AppendRune <$> rs)).

(** The runes that [strings.Map] writes: [mapping] is called once for each
    rune, in order, with the state [st] that the closure has reached; a
    negative result drops the rune. *)
Fixpoint mapRunes {S : Type} (mapping : S → rune → rune * S) (st : S)
    (rs : list rune) : list rune :=
  match rs with
  | [] => []
  | c :: rest =>
      let '(r, st') := mapping st c in
      (if (r <? 0)%Z then [] else [r]) ++ mapRunes mapping st' rest
  end.

(** strings.Map, for a mapping with state: the runes of [s] are mapped and
    written in UTF-8.  (The library copies the bytes of [s] up to the first
    rune that the mapping changes or that is an ill-formed byte; for these
    well-formed bytes copying and re-encoding give the same.) *)
Definition strings_Map {S : Type} (mapping : S → rune → rune * S) (st : S)
    (s : string) : string :=
  encodeRunes (mapRunes mapping st (runes s)).

(** A mapping that is a pure function. *)
Definition pureMapping (f : rune → rune) (st : unit) (r : rune) : rune * unit :=
  (f r, st).

(** The case tables of package unicode. *)
Class UnicodeCase : Type := {
  unicode_IsLower : rune → bool;
  unicode_IsUpper : rune → bool;
  unicode_ToLower : rune → rune;
  unicode_ToUpper : rune → rune
}.

(** unicode.IsSpace: the Latin-1 cases, then the White_Space table. *)
Definition unicode_IsSpace (r : rune) : bool :=
  (if (0 <=? r) && (r <=? 255) then
     (r =? 9) || (r =? 10) || (r =? 11) || (r =? 12) || (r =? 13)
     || (r =? 32) || (r =? 133) || (r =? 160)
   else
     (r =? 5760) || inRange 8192 8202 r || (r =? 8232) || (r =? 8233)
     || (r =? 8239) || (r =? 8287) || (r =? 12288))%Z.

(** ** Package path/filepath, on a system whose separator is [/] *)

Definition Separator : ascii := "/"%char.

(** The elements of a path: what stands between its separators. *)
Fixpoint splitPath (cur : list ascii) (s : list ascii) : list (list ascii) :=
  match s with
  | [] => [reverse cur]
  | c :: rest =>
      if decide (c = Separator) then reverse cur :: splitPath [] rest
      else splitPath (c :: cur) rest
  end.

Definition dot : list ascii := ["."%char].

Definition dotdot : list ascii := ["."%char; "."%char].

(** One element read by [Clean]; [out] holds the elements written so far,
    the last one first. *)
Definition cleanStep (rooted : bool) (out : list (list ascii))
    (elem : list ascii) : list (list ascii) :=
  if decide (elem = []) then out
  else if decide (elem = dot) then out
  else if decide (elem = dotdot) then
    match out with
    | top :: below =>
        if decide (top = dotdot) then elem :: out else below
    | [] => if rooted then out else [elem]
    end
  else elem :: out.

Fixpoint joinPath (elems : list (list ascii)) : list ascii :=
  match elems with
  | [] => []
  | [e] => e
  | e :: rest => e ++ Separator :: joinPath rest
  end.

(** filepath.Clean, read element by element: empty elements and [.] are
    dropped, [..] removes the element before it, or stays when there is none
    to remove and the path is not rooted. *)
Definition filepath_Clean (path : string) : string :=
  match list_ascii_of_string path with
  | [] => "."
  | (c :: _) as l =>
      let rooted := bool_decide (c = Separator) in
      let out := reverse (foldl (cleanStep rooted) [] (splitPath [] l)) in
      if rooted then string_of_list_ascii (Separator :: joinPath out)
      else if decide (out = []) then "."
      else string_of_list_ascii (joinPath out)
  end.

Fixpoint dropTrailingSeparators (rl : list ascii) : list ascii :=
  match rl with
  | c :: rest =>
      if decide (c = Separator) then dropTrailingSeparators rest else rl
  | [] => []
  end.

(** The bytes after the last separator of [l], read from the end. *)
Fixpoint lastElement (rl : list ascii) : list ascii :=
  match rl with
  | c :: rest => if decide (c = Separator) then [] else c :: lastElement rest
  | [] => []
  end.

(** filepath.Base: the last element of the path, after its trailing
    separators are removed. *)
Definition filepath_Base (path : string) : string :=
  if decide (path = "") then "."
  else
    let rl := dropTrailingSeparators (reverse (list_ascii_of_string path)) in
    let elem := reverse (lastElement rl) in
    if decide (elem = []) then String Separator ""
    else string_of_list_ascii elem.

(** What stands before the last element, with its separator. *)
Fixpoint dropLastElement (rl : list ascii) : list ascii :=
  match rl with
  | c :: rest => if decide (c = Separator) then rl else dropLastElement rest
  | [] => []
  end.

(** filepath.Dir: [Clean] of the path up to and including its last
    separator. *)
Definition filepath_Dir (path : string) : string :=
  filepath_Clean
    (string_of_list_ascii
       (reverse (dropLastElement (reverse (list_ascii_of_string path))))).

(** filepath.Join of two elements: [Clean] of the elements joined by a
    separator, from the first one that is not empty. *)
Definition filepath_Join (a b : string) : string :=
  if decide (a = "") then
    if decide (b = "") then "" else filepath_Clean b
  else filepath_Clean (a +:+ String Separator b).

(** ** sqlfile.go: the file on disk *)

(** func (sqlFile *SQLFile) FileName() string *)
Definition FileName : M string :=
  f ← getFile; mret (filepath_Base (FilePath f)).

(** func (sqlFile *SQLFile) Exists() (bool, error) *)
Definition Exists (os : OS) : M (bool * option error) :=
  f ← getFile;
  match statResult os (FilePath f) with
  | inl _ => mret (true, None)
  | inr err =>
      if os_IsNotExist err then mret (false, None)
      else mret (false, Some err)
  end.

(** ** sqlfile.go: naming *)

Section Naming.
Context {UC : UnicodeCase}.

(** The closure passed to [strings.Map] in [genCaseTestFilename]; its state
    is the variable [flip]. *)
Definition caseFlip (flip : bool) (r : rune) : rune * bool :=
  if flip then
    if unicode_IsLower r then
      let u := unicode_ToUpper r in
      if (unicode_ToLower u =? r)%Z then (u, false) else (r, flip)
    else if unicode_IsUpper r then
      let l := unicode_ToLower r in
      if (unicode_ToUpper l =? r)%Z then (l, false) else (r, flip)
    else (r, flip)
  else (r, flip).

(** func genCaseTestFilename(str string) string *)
Definition genCaseTestFilename (str : string) : string :=
  strings_Map caseFlip true str.

Definition probeError (err : error) : error :=
  FmtError ("could not determine the case-sensitivity of the filesystem: "
            +:+ Error err).

(** func IsCaseSensitiveFilesystem(dir string) (bool, error) *)
Definition IsCaseSensitiveFilesystem (os : OS) (dir : string)
  : bool * option error :=
  let alt := filepath_Join (filepath_Dir dir)
                           (genCaseTestFilename (filepath_Base dir)) in
  match statResult os dir with
  | inr err => (false, Some (probeError err))
  | inl dInfo =>
      match statResult os alt with
      | inr err =>
          if os_IsNotExist err then (true, None)
          else (false, Some (probeError err))
      | inl aInfo => (negb (os_SameFile dInfo aInfo), None)
      end
  end.

(** strings.ToLower: [unicode.ToLower] on every rune (the library has a
    shortcut for ASCII strings, with the same result). *)
Definition strings_ToLower (s : string) : string :=
  strings_Map (pureMapping unicode_ToLower) tt s.

(** func NormalizeFileName(name string, lowerCase bool) string *)
Definition NormalizeFileName (name : string) (lowerCase : bool) : string :=
  if lowerCase then strings_ToLower name else name.

(** The slice [banned] of [removeSpecialChars]. *)
Definition banned : list rune :=
  [ runeOf ".";
    runeOf "\"; runeOf "/";
    runeOf "034"; runeOf "'"; runeOf "`";
    runeOf ":"; runeOf "*"; runeOf "?"; runeOf "|"; runeOf "~"; runeOf "#";
    runeOf "&"; runeOf "-";
    runeOf "<"; runeOf ">"; runeOf "{"; runeOf "}"; runeOf "["; runeOf "]";
    runeOf "("; runeOf ")" ].

(** The loop [for _, bad := range banned] of [removeSpecialChars]. *)
Fixpoint removeIfBanned (r : rune) (l : list rune) : rune :=
  match l with
  | [] => r
  | bad :: rest => if (r =? bad)%Z then (-1)%Z else removeIfBanned r rest
  end.

(** func removeSpecialChars(r rune) rune *)
Definition removeSpecialChars (r : rune) : rune :=
  if unicode_IsSpace r then (-1)%Z else removeIfBanned r banned.

(** func FileNameForObject(objectName string, lowerCase bool) string *)
Definition FileNameForObject (objectName : string) (lowerCase : bool)
  : string :=
  let objectName := strings_Map (pureMapping removeSpecialChars) tt objectName in
  let objectName := if decide (objectName = "") then "symbols" else objectName in
  NormalizeFileName objectName lowerCase +:+ ".sql".

(** func PathForObject(dirPath, objectName string) string *)
Definition PathForObject (os : OS) (dirPath objectName : string) : string :=
  let '(caseSensitive, _) := IsCaseSensitiveFilesystem os dirPath in
  filepath_Join dirPath (FileNameForObject objectName (negb caseSensitive)).

End Naming.

(** * Part II: the vocabulary of the properties *)

(** ** Statements in the heap *)

(** The statement at [p] is of type Command, respectively of another type. *)
Definition isCommandAt (h : gmap loc Statement) (p : ptr) : Prop :=
  ∃ s, load h p = Some s ∧ Type_ s = StatementTypeCommand.

Definition notCommandAt (h : gmap loc Statement) (p : ptr) : Prop :=
  ∃ s, load h p = Some s ∧ Type_ s ≠ StatementTypeCommand.

(** No entry of the slice is [nil]. *)
Definition validPtrs (h : gmap loc Statement) (l : list ptr) : Prop :=
  Forall (λ p, is_Some (load h p)) l.

(** Every object of [h] is still there in [h'], with the type it had. *)
Definition typesKept (h h' : gmap loc Statement) : Prop :=
  ∀ a s, h !! a = Some s → ∃ s', h' !! a = Some s' ∧ Type_ s' = Type_ s.

(** [w'] is [w] after [AddStatement stmt]: the trailing commands [pruned]
    are gone, and after what is kept come at most one new command, [stmt],
    and at most one new command. *)
Definition addShape (w : World) (stmt : ptr) (w' : World) : Prop :=
  ∃ kept pruned pre post,
    Statements (sqlFile w) = kept ++ pruned
    ∧ Forall (isCommandAt (heap w)) pruned
    ∧ (∀ p, last kept = Some p → notCommandAt (heap w) p)
    ∧ Statements (sqlFile w') = kept ++ pre ++ [stmt] ++ post
    ∧ length pre ≤ 1 ∧ length post ≤ 1
    ∧ Forall (λ c, load (heap w) c = None ∧ isCommandAt (heap w') c)
             (pre ++ post)
    ∧ typesKept (heap w) (heap w').

(** The texts of the statements of [l], one after the other. *)
Fixpoint concatTexts (h : gmap loc Statement) (l : list ptr) : string :=
  match l with
  | [] => ""
  | p :: rest =>
      match load h p with
      | Some s => Text s +:+ concatTexts h rest
      | None => concatTexts h rest
      end
  end.

(** The statement at [p] is neither a Noop nor a Command. *)
Definition hasContentAt (h : gmap loc Statement) (p : ptr) : bool :=
  match load h p with
  | Some s => bool_decide (Type_ s ≠ StatementTypeNoop)
              && bool_decide (Type_ s ≠ StatementTypeCommand)
  | None => false
  end.

(** The statement at [p] is a Noop or a Command. *)
Definition inertAt (h : gmap loc Statement) (p : ptr) : Prop :=
  ∃ s, load h p = Some s
       ∧ (Type_ s = StatementTypeNoop ∨ Type_ s = StatementTypeCommand).

(** ** Delimiters and the DELIMITER commands before them *)

(** Modelled from the spec: the tokenizer, an external collaborator of the
    editor.  [declaredIn text] is what it reads in the text of a
    Command-type statement: the delimiter that the command sets, if it is a
    DELIMITER command. *)
Class Tokenizer : Type := {
  declaredIn : string → option string
}.

Section DelimiterVocabulary.
Context {TK : Tokenizer}.

(** The delimiter that statement [s] sets for the statements after it. *)
Definition declares (s : Statement) : option string :=
  if decide (Type_ s = StatementTypeCommand) then declaredIn (Text s)
  else None.

(** The delimiter declared by the nearest statement that sets one, in a
    list of statements read from the nearest to the farthest; [";"] if
    there is none. *)
Fixpoint nearestDeclared (h : gmap loc Statement) (rl : list ptr) : string :=
  match rl with
  | [] => ";"
  | p :: rest =>
      match load h p ≫= declares with
      | Some d => d
      | None => nearestDeclared h rest
      end
  end.

(** The delimiter in effect after the statements [preceding]. *)
Definition delimiterInEffect (h : gmap loc Statement) (preceding : list ptr)
  : string :=
  nearestDeclared h (reverse preceding).

(** The same, reading forward from a current delimiter [cur]. *)
Definition next (h : gmap loc Statement) (cur : string) (p : ptr) : string :=
  match load h p ≫= declares with
  | Some d => d
  | None => cur
  end.

(** Forward from [cur], every statement of [l] that is not a command has
    the delimiter in effect where it stands. *)
Fixpoint consistentFrom (h : gmap loc Statement) (cur : string)
    (l : list ptr) : Prop :=
  match l with
  | [] => True
  | p :: rest =>
      (∀ s, load h p = Some s → Type_ s ≠ StatementTypeCommand →
            Delimiter s = cur)
      ∧ consistentFrom h (next h cur p) rest
  end.

(** The statements of [l] play the same role in [h'] as in [h]: they set
    the same delimiter, and those that are not commands have the same
    delimiter. *)
Definition sameRoles (h h' : gmap loc Statement) (l : list ptr) : Prop :=
  ∀ p, p ∈ l →
    load h' p ≫= declares = load h p ≫= declares
    ∧ (∀ s', load h' p = Some s' → Type_ s' ≠ StatementTypeCommand →
             ∃ s, load h p = Some s ∧ Type_ s ≠ StatementTypeCommand
                  ∧ Delimiter s = Delimiter s').

(** No pointer occurs twice, none is [nil], and every statement that is
    not a command has the delimiter in effect where it stands. *)
Definition bracketed (h : gmap loc Statement) (l : list ptr) : Prop :=
  NoDup l ∧ validPtrs h l ∧ consistentFrom h ";" l.

(** Every statement of the file has the delimiter declared by the nearest
    command before it that sets one, [";"] if there is none. *)
Definition delimitersAsDeclared (w : World) : Prop :=
  ∀ i p s,
    Statements (sqlFile w) !! i = Some p →
    load (heap w) p = Some s →
    Delimiter s
    = delimiterInEffect (heap w) (take i (Statements (sqlFile w))).

(** The same, of the statements that are not of type Command. *)
Definition statementDelimitersAsDeclared (w : World) : Prop :=
  ∀ i p s,
    Statements (sqlFile w) !! i = Some p →
    load (heap w) p = Some s →
    Type_ s ≠ StatementTypeCommand →
    Delimiter s
    = delimiterInEffect (heap w) (take i (Statements (sqlFile w))).

End DelimiterVocabulary.

(** ** Files reachable by calls of the editor *)

Section Calls.
Context {SM : StatementMethods}.

(** A call of one of the three mutating operations. *)
Inductive Call : Type :=
  | CallAddStatement (stmt : ptr)
  | CallEditStatementText (stmt : ptr) (newText : string) (compound : bool)
  | CallRemoveStatement (stmt : ptr).

Definition perform (c : Call) : M unit :=
  match c with
  | CallAddStatement stmt => AddStatement stmt
  | CallEditStatementText stmt newText compound =>
      EditStatementText stmt newText compound
  | CallRemoveStatement stmt => RemoveStatement stmt
  end.

(** The worlds reachable from a file without statements by calls that
    return, each of them [allowed] where it is made.  Between two calls the
    caller may create statements. *)
Inductive reachableBy (allowed : World → Call → Prop) : World → Prop :=
  | reachable_empty (w : World) :
      Statements (sqlFile w) = [] → reachableBy allowed w
  | reachable_new (w : World) (a : loc) (s : Statement) :
      reachableBy allowed w →
      heap w !! a = None →
      reachableBy allowed
        (mkWorld (<[a := s]> (heap w)) (sqlFile w) (syscalls w))
  | reachable_call (w : World) (c : Call) (w' : World) :
      reachableBy allowed w →
      allowed w c →
      perform c w = Ok (tt, w') →
      reachableBy allowed w'.

(** The world after a call, which is the world before it if the call
    panics. *)
Definition after (c : Call) (w : World) : World :=
  match perform c w with
  | Ok (_, w') => w'
  | Panic _ => w
  end.

End Calls.

(** Any call. *)
Definition anyCall (w : World) (c : Call) : Prop := True.

(** [AddStatement] is called with a statement that is not yet an entry of
    the file; [EditStatementText] and [RemoveStatement] are called with a
    statement that is not of type Command. *)
Definition disciplined (w : World) (c : Call) : Prop :=
  match c with
  | CallAddStatement stmt =>
      is_Some (load (heap w) stmt) ∧ stmt ∉ Statements (sqlFile w)
  | CallEditStatementText stmt _ _ => notCommandAt (heap w) stmt
  | CallRemoveStatement stmt => notCommandAt (heap w) stmt
  end.

(** ** Names *)

(** The string is well-formed UTF-8: reading its runes and writing them
    back gives the same bytes. *)
Definition wellFormedUTF8 (s : string) : Prop := encodeRunes (runes s) = s.

Section NamingVocabulary.
Context {UC : UnicodeCase}.

(** The rune can be case-flipped and flipped back: it is lower case and
    [lower(upper(r)) = r], or it is upper case and [upper(lower(r)) = r]. *)
Definition caseReversible (r : rune) : bool :=
  if unicode_IsLower r then (unicode_ToLower (unicode_ToUpper r) =? r)%Z
  else if unicode_IsUpper r then (unicode_ToUpper (unicode_ToLower r) =? r)%Z
  else false.

End NamingVocabulary.

(** The rune is white space or one of the banned runes. *)
Definition isSpecialChar (r : rune) : bool :=
  unicode_IsSpace r || bool_decide (r ∈ banned).

(** ** Actions of [M]

    [wp m Q w]: run from [w], the action [m] returns (it does not panic), and
    its value and final world satisfy [Q]. *)

Definition wp {A : Type} (m : M A) (Q : A → World → Prop) (w : World) : Prop :=
  match m w with
  | Ok (a, w') => Q a w'
  | Panic _ => False
  end.

(** ** Actions that may panic, and their effects *)

(** [wlp m Q w]: if the action [m], run from [w], returns, then its value
    and final world satisfy [Q]. *)
Definition wlp {A : Type} (m : M A) (Q : A → World → Prop) (w : World) : Prop :=
  ∀ a w', m w = Ok (a, w') → Q a w'.

(** The delimiter of the DELIMITER command that [AddStatement] inserts in
    front of a statement, when the delimiter at the end of the file is
    [cur]: none when the statement can do with [cur]. *)
Definition openingDelimiter (compound : bool) (cur : string) : option string :=
  if compound && bool_decide (cur = ";") then Some "//"
  else if negb compound && bool_decide (cur ≠ ";") then Some ";"
  else None.

(** The statement that [AddStatement] makes of [s] in the file [fp], after
    a statement with default database [db], with the delimiter [d]. *)
Definition addedStatement (fp db d : string) `{StatementMethods}
    (s : Statement) : Statement :=
  let s1 := set_Delimiter d (set_DefaultDatabase db (set_File fp s)) in
  set_Text (normalizedText s1) s1.

(** [kept] is the slice of [w] without the commands at its end: what the
    pruning loop of [AddStatement] leaves. *)
Definition withoutTrailingCommands (w : World) (kept : list ptr) : Prop :=
  ∃ pruned,
    Statements (sqlFile w) = kept ++ pruned
    ∧ Forall (isCommandAt (heap w)) pruned
    ∧ (∀ p, last kept = Some p → notCommandAt (heap w) p).

(** The last statement of [kept], if there is one. *)
Definition lastStatement (w : World) (kept : list ptr) : option Statement :=
  last kept ≫= load (heap w).

(** The delimiter and the default database at the end of [kept], as
    [AddStatement] reads them. *)
Definition delimiterAtEnd (w : World) (kept : list ptr) : string :=
  from_option Delimiter ";" (lastStatement w kept).

Definition databaseAtEnd (w : World) (kept : list ptr) : string :=
  from_option DefaultDatabase "" (lastStatement w kept).

(** The effect of [AddStatement] of the statement [s] at address [a] on a
    file whose statements are [kept] followed by commands: [w'] is [w] with
    the last statement of [kept] normalized, [s] rewritten and appended
    behind [kept], with a DELIMITER command [pre] in front of it and a
    DELIMITER command [post] behind it where they are needed. *)
Definition addEffect `{StatementMethods} (w : World) (a : loc)
    (s : Statement) (kept : list ptr) (w' : World) : Prop :=
  let fp := FilePath (sqlFile w) in
  let cur := delimiterAtEnd w kept in
  let db := databaseAtEnd w kept in
  let final := default cur (openingDelimiter (Compound s) cur) in
  ∃ pre post : list ptr,
    Statements (sqlFile w') = kept ++ pre ++ [Some a] ++ post
    ∧ FilePath (sqlFile w') = fp
    ∧ Dirty (sqlFile w') = true
    ∧ syscalls w' = syscalls w
    ∧ Forall (λ c, load (heap w) c = None) (pre ++ post)
    ∧ NoDup (pre ++ post)
    ∧ match openingDelimiter (Compound s) cur with
      | Some d =>
          ∃ c, pre = [c]
               ∧ load (heap w') c = Some (delimiterCommand d db fp)
      | None => pre = []
      end
    ∧ (if decide (final = ";") then post = []
       else ∃ c, post = [c]
                 ∧ load (heap w') c = Some (delimiterCommand ";" db fp))
    ∧ heap w' !! a = Some (addedStatement fp db final s)
    ∧ (∀ p l, last kept = Some p → load (heap w) p = Some l →
              load (heap w') p = Some (set_Text (normalizedText l) l))
    ∧ (∀ p, p ≠ Some a → last kept ≠ Some p → p ∉ pre ++ post →
            load (heap w') p = load (heap w) p)
    ∧ typesKept (heap w) (heap w').

(** [w'] differs from [w] by work in memory only: the path of the file and
    the log of calls of package os are the same, no statement object is
    gone or has changed its type, and the file is still dirty if it was. *)
Definition sameDisk (w w' : World) : Prop :=
  FilePath (sqlFile w') = FilePath (sqlFile w)
  ∧ syscalls w' = syscalls w
  ∧ typesKept (heap w) (heap w')
  ∧ (Dirty (sqlFile w) = true → Dirty (sqlFile w') = true).

(** The action works in memory only, from every world. *)
Definition inMemory {A : Type} (m : M A) : Prop :=
  ∀ w, wlp m (λ _ w', sameDisk w w') w.

(** The action leaves the file marked dirty, from every world. *)
Definition marksDirty {A : Type} (m : M A) : Prop :=
  ∀ w, wlp m (λ _ w', Dirty (sqlFile w') = true) w.

(** ** UTF-8 *)

(** The rune is a Unicode scalar value: in range and not a surrogate. *)
Definition validRune (r : rune) : bool :=
  ((0 <=? r) && (r <=? 1114111) && negb ((55296 <=? r) && (r <=? 57343)))%Z.

(** What is read back of a rune written by [utf8.AppendRune]. *)
Definition sanitize (r : rune) : rune := if validRune r then r else RuneError.

(** ** Elements of paths *)

(** The bytes are one element of a path: not empty, not [.] or [..], and
    without a separator. *)
Definition isPathElement (l : list ascii) : Prop :=
  (Separator ∉ l) ∧ l ≠ [] ∧ l ≠ dot ∧ l ≠ dotdot.

(** ** Case tables *)

Section CaseTables.
Context {UC : UnicodeCase}.

(** Lower-casing turns no rune of a name into white space or a banned
    rune, and gives no negative number. *)
Definition lowerCaseKeepsNames : Prop :=
  ∀ r, validRune r = true → isSpecialChar r = false →
       (0 ≤ unicode_ToLower r)%Z ∧ isSpecialChar (unicode_ToLower r) = false.

(** Lower-casing maps scalar values to scalar values, and a lower-cased
    rune to itself. *)
Definition lowerCaseIdempotent : Prop :=
  ∀ r, validRune r = true →
       validRune (unicode_ToLower r) = true
       ∧ unicode_ToLower (unicode_ToLower r) = unicode_ToLower r.

(** The rune that [genCaseTestFilename] writes for a case-reversible rune:
    the upper-case rune of a lower-case one, the lower-case rune of an
    upper-case one. *)
Definition caseFlipped (r : rune) : rune :=
  if unicode_IsLower r then unicode_ToUpper r else unicode_ToLower r.

End CaseTables.

(** * Part III: concrete implementations and files *)

(** ** A reference implementation of the tengo.Statement methods *)

Definition isSpaceByte (c : ascii) : bool :=
  bool_decide (c = " "%char) || bool_decide (c = "009"%char)
  || bool_decide (c = "010"%char) || bool_decide (c = "013"%char).

Fixpoint dropPrefix (pre l : list ascii) : option (list ascii) :=
  match pre, l with
  | [], _ => Some l
  | a :: pre', b :: l' => if decide (a = b) then dropPrefix pre' l' else None
  | _ :: _, [] => None
  end.

(** The leading white space of [l], and what follows it. *)
Fixpoint spanSpace (l : list ascii) : list ascii * list ascii :=
  match l with
  | c :: l' =>
      if isSpaceByte c
      then let '(ws, rest) := spanSpace l' in (c :: ws, rest)
      else ([], l)
  | [] => ([], [])
  end.

(** Modelled from the spec: tengo.Statement.SplitTextBody; the footer is the
    trailing white space of the text, preceded by the statement's delimiter
    when the text has it there. *)
Definition refSplitTextBody (s : Statement) : string * string :=
  let r := rev (list_ascii_of_string (Text s)) in
  let '(ws, rest) := spanSpace r in
  match dropPrefix (rev (list_ascii_of_string (Delimiter s))) rest with
  | Some body =>
      (string_of_list_ascii (rev body),
       Delimiter s +:+ string_of_list_ascii (rev ws))
  | None =>
      (string_of_list_ascii (rev rest), string_of_list_ascii (rev ws))
  end.

(** Modelled from the spec: tengo.Statement.NormalizeTrailer; the body, the
    delimiter and one newline. *)
Definition refNormalizedText (s : Statement) : string :=
  fst (refSplitTextBody s) +:+ Delimiter s +:+ nl.

(** Modelled from the spec: tengo.Statement.Location; here the file name. *)
Definition refLocation (s : Statement) : string := File s.

Definition refStatementMethods : StatementMethods :=
  {| SplitTextBody := refSplitTextBody;
     normalizedText := refNormalizedText;
     Location := refLocation |}.

(** A reading of DELIMITER commands: the text between ["DELIMITER "] and the
    final newline. *)
Definition parseDelimiterCommand (text : string) : option string :=
  match dropPrefix (list_ascii_of_string "DELIMITER ")
                   (list_ascii_of_string text) with
  | Some rest =>
      match reverse rest with
      | c :: rd =>
          if decide (c = "010"%char)
          then Some (string_of_list_ascii (reverse rd))
          else None
      | [] => None
      end
  | None => None
  end.

Definition refTokenizer : Tokenizer :=
  {| declaredIn := parseDelimiterCommand |}.

(** The case tables restricted to ASCII, where a letter is one of the 26
    Latin letters; enough to run the functions on ASCII names. *)
Definition asciiCase : UnicodeCase :=
  {| unicode_IsLower := λ r, inRange 97 122 r;
     unicode_IsUpper := λ r, inRange 65 90 r;
     unicode_ToLower := λ r, if inRange 65 90 r then (r + 32)%Z else r;
     unicode_ToUpper := λ r, if inRange 97 122 r then (r - 32)%Z else r |}.

(** ** Files *)

(** The body of a trigger, as the tokenizer hands it over. *)
Definition trigger : Statement :=
  {| File := "";
     Text := "CREATE TRIGGER t BEFORE INSERT ON a FOR EACH ROW BEGIN SET @x = 1; END";
     Type_ := StatementTypeOther;
     Delimiter := "";
     DefaultDatabase := "";
     Compound := true |}.

Definition createTable : Statement :=
  {| File := "";
     Text := "CREATE TABLE a (id int)";
     Type_ := StatementTypeOther;
     Delimiter := "";
     DefaultDatabase := "";
     Compound := false |}.

(** A new file [t.sql]; the caller holds a trigger at address 1 and a table
    at address 2. *)
Definition emptyFile : World :=
  {| heap := {[ 1%positive := trigger; 2%positive := createTable ]};
     sqlFile := {| FilePath := "t.sql"; Statements := []; Dirty := false |};
     syscalls := [] |}.

(** Scenario B: the trigger is added to the new file. *)
Definition withTrigger : World :=
  after (SM := refStatementMethods) (CallAddStatement (Some 1%positive))
        emptyFile.

(** Scenario C: the trigger is removed again. *)
Definition withoutTrigger : World :=
  after (SM := refStatementMethods) (CallRemoveStatement (Some 1%positive))
        withTrigger.

(** The DELIMITER // command in front of the trigger is removed. *)
Definition withoutOpeningCommand : World :=
  after (SM := refStatementMethods) (CallRemoveStatement (Some 3%positive))
        withTrigger.

(** The world after the table is added to the new file. *)
Definition withTable : World :=
  after (SM := refStatementMethods) (CallAddStatement (Some 2%positive))
        emptyFile.

(** The table is added, made compound by an edit, added a second time,
    made simple again by an edit, and added a third time. *)
Definition tableAddedAgain : World :=
  foldl (λ w c, after (SM := refStatementMethods) c w) emptyFile
    [ CallAddStatement (Some 2%positive);
      CallEditStatementText (Some 2%positive) "CREATE TABLE a (id int)" true;
      CallAddStatement (Some 2%positive);
      CallEditStatementText (Some 2%positive) "CREATE TABLE a (id int)" false;
      CallAddStatement (Some 2%positive) ].

(** The table and the trigger as [AddStatement] leaves them in the file. *)
Definition tableInFile : Statement :=
  {| File := "t.sql";
     Text := Text createTable +:+ ";" +:+ nl;
     Type_ := StatementTypeOther;
     Delimiter := ";";
     DefaultDatabase := "";
     Compound := false |}.

Definition triggerInFile : Statement :=
  {| File := "t.sql";
     Text := Text trigger +:+ "//" +:+ nl;
     Type_ := StatementTypeOther;
     Delimiter := "//";
     DefaultDatabase := "";
     Compound := true |}.

(** An operating system on which every call succeeds. *)
Definition quietOS : OS :=
  {| statResult := λ _, inl (mkFileInfo 1 1);
     writeFileResult := λ _ _ _, None;
     removeResult := λ _, None |}.

(** A directory ["123"] without an entry ["123"] in it: stat succeeds on
    ["123"] and ["123/"], and on nothing else. *)
Definition numericDirOS : OS :=
  {| statResult := λ name,
       if decide (name = "123" ∨ name = "123/")
       then inl (mkFileInfo 2049 131)
       else inr (OSError ("stat " +:+ name +:+ ": no such file or directory")
                         true);
     writeFileResult := λ _ _ _, None;
     removeResult := λ _, None |}.

(** ** Further files *)




(** A file whose path is the one for the object ["My Table!"] in the
    directory ["123"]. *)
Definition fileForMyTable : World :=
  {| heap := ∅;
     sqlFile := {| FilePath := PathForObject (UC := asciiCase) numericDirOS
                                 "123" "My Table!";
                   Statements := [];
                   Dirty := false |};
     syscalls := [] |}.

(** * Part IV: the properties *)

(** ** Reasoning about actions of [M] *)

Lemma wp_elim {A : Type} (m : M A) (Q : A → World → Prop) (w : World) :
  wp m Q w ↔ ∃ a w', m w = Ok (a, w') ∧ Q a w'.
Proof.
  unfold wp. split.
  - destruct (m w) as [[a w']|msg]; [eauto | tauto].
  - intros (a & w' & -> & HQ). exact HQ.
Qed.

Lemma wp_mono {A : Type} (m : M A) (Q Q' : A → World → Prop) (w : World) :
  wp m Q w → (∀ a w', Q a w' → Q' a w') → wp m Q' w.
Proof. unfold wp. destruct (m w) as [[a w']|msg]; [auto | tauto]. Qed.

Lemma wp_ret {A : Type} (a : A) (Q : A → World → Prop) (w : World) :
  Q a w → wp (mret a) Q w.
Proof. done. Qed.

Lemma wp_bind {A B : Type} (m : M A) (f : A → M B) (Q : B → World → Prop)
    (w : World) :
  wp m (λ a w', wp (f a) Q w') w → wp (m ≫= f) Q w.
Proof.
  unfold wp, mbind, M_bind. destruct (m w) as [[a w']|msg]; [done | tauto].
Qed.

Lemma wp_bind_inv {A B : Type} (m : M A) (f : A → M B)
    (Q : B → World → Prop) (w : World) :
  wp (m ≫= f) Q w → wp m (λ a w', wp (f a) Q w') w.
Proof.
  unfold wp, mbind, M_bind. destruct (m w) as [[a w']|msg]; [done | tauto].
Qed.

Lemma wp_deref (p : ptr) (s : Statement) (Q : Statement → World → Prop)
    (w : World) :
  load (heap w) p = Some s → Q s w → wp (deref p) Q w.
Proof. intros Hp HQ. unfold wp, deref. by rewrite Hp. Qed.

Lemma wp_modify (a : loc) (s : Statement) (f : Statement → Statement)
    (Q : unit → World → Prop) (w : World) :
  heap w !! a = Some s →
  Q tt (mkWorld (<[a := f s]> (heap w)) (sqlFile w) (syscalls w)) →
  wp (modify (Some a) f) Q w.
Proof. intros Ha HQ. unfold wp, modify. by rewrite Ha. Qed.

Lemma wp_alloc (s : Statement) (Q : ptr → World → Prop) (w : World) :
  (∀ a, heap w !! a = None →
        Q (Some a) (mkWorld (<[a := s]> (heap w)) (sqlFile w) (syscalls w))) →
  wp (alloc s) Q w.
Proof.
  intros HQ. unfold wp, alloc. apply HQ, not_elem_of_dom, is_fresh.
Qed.

Lemma wp_getFile (Q : SQLFile → World → Prop) (w : World) :
  Q (sqlFile w) w → wp getFile Q w.
Proof. done. Qed.

Lemma wp_setStatements (l : list ptr) (Q : unit → World → Prop) (w : World) :
  Q tt (mkWorld (heap w)
                (mkSQLFile (FilePath (sqlFile w)) l (Dirty (sqlFile w)))
                (syscalls w)) →
  wp (setStatements l) Q w.
Proof. done. Qed.

Lemma wp_setDirty (d : bool) (Q : unit → World → Prop) (w : World) :
  Q tt (mkWorld (heap w)
                (mkSQLFile (FilePath (sqlFile w)) (Statements (sqlFile w)) d)
                (syscalls w)) →
  wp (setDirty d) Q w.
Proof. done. Qed.

Lemma wp_appendStatement (p : ptr) (Q : unit → World → Prop) (w : World) :
  Q tt (mkWorld (heap w)
                (mkSQLFile (FilePath (sqlFile w))
                           (Statements (sqlFile w) ++ [p])
                           (Dirty (sqlFile w)))
                (syscalls w)) →
  wp (appendStatement p) Q w.
Proof. done. Qed.

Lemma wp_boundsCheck (b : bool) (Q : unit → World → Prop) (w : World) :
  b = true → Q tt w → wp (boundsCheck b) Q w.
Proof. by intros ->. Qed.

Lemma wp_panic {A : Type} (msg : string) (Q : A → World → Prop) (w : World) :
  ¬ wp (panic msg) Q w.
Proof. unfold wp, panic. tauto. Qed.

(** What a new address not in the heap tells about the addresses in use. *)
Ltac fresh_facts :=
  repeat match goal with
         | Hf : <[_:=_]> _ !! _ = None |- _ =>
             apply lookup_insert_None in Hf as [Hf ?]
         end.

(** A lookup in a heap built by updates of a heap with known content. *)
Ltac solve_lookup :=
  cbn [heap sqlFile syscalls];
  repeat (rewrite lookup_insert_ne by congruence);
  first [ apply lookup_insert_eq | eassumption ].

Lemma load_insert_eq (h : gmap loc Statement) (a : loc) (s : Statement) :
  load (<[a := s]> h) (Some a) = Some s.
Proof. apply lookup_insert_eq. Qed.

Lemma load_insert_ne (h : gmap loc Statement) (a : loc) (s : Statement)
    (p : ptr) :
  p ≠ Some a → load (<[a := s]> h) p = load h p.
Proof.
  destruct p as [b|]; [|done]. intros Hne. simpl.
  apply lookup_insert_ne. congruence.
Qed.

Lemma load_Some_ne (h : gmap loc Statement) (p : ptr) (a : loc) :
  is_Some (load h p) → h !! a = None → p ≠ Some a.
Proof. intros [s Hs] Ha ->. simpl in Hs. congruence. Qed.

(** ** The slice expressions of [EditStatementText] and [RemoveStatement] *)

Lemma length_copyInto {A} (off : nat) (src dst : list A) :
  off ≤ length dst → length (copyInto off src dst) = length dst.
Proof.
  intros Hoff. unfold copyInto.
  rewrite !length_app, !length_take, length_drop. lia.
Qed.

(** The side condition of an index or slice expression. *)
Ltac solve_bounds :=
  repeat first [ rewrite length_insert
               | rewrite length_copyInto by solve_bounds
               | rewrite length_replicate
               | rewrite length_app
               | rewrite length_cons ];
  simpl; lia.

Lemma copyInto_nil_prefix {A} (x : A) (src : list A) (n : nat) :
  length src ≤ n →
  copyInto 0 src (replicate n x) = src ++ replicate (n - length src) x.
Proof.
  intros Hn. unfold copyInto. rewrite take_0, length_replicate, Nat.sub_0_r.
  simpl. rewrite take_ge by lia. by rewrite drop_replicate.
Qed.

Lemma copyInto_tail {A} (done src fill : list A) :
  length fill = length src →
  copyInto (length done) src (done ++ fill) = done ++ src.
Proof.
  intros Hn. unfold copyInto.
  rewrite take_app_length, length_app, Hn.
  replace (length done + length src - length done) with (length src) by lia.
  rewrite take_ge by lia.
  rewrite drop_ge; [by rewrite app_nil_r|]. rewrite length_app. lia.
Qed.

Lemma drop_S_middle {A} (pre post : list A) (x : A) :
  drop (length pre + 1) (pre ++ x :: post) = post.
Proof.
  rewrite (cons_middle x), app_assoc.
  apply drop_app_length'. rewrite length_app. simpl. lia.
Qed.

Lemma rebracket_slices (pre post : list ptr) (stmt c1 c2 : ptr) :
  let old := pre ++ stmt :: post in
  let i := length pre in
  copyInto (i + 3) (drop (i + 1) old)
    (<[i + 2 := c2]> (<[i + 1 := stmt]> (<[i := c1]>
       (copyInto 0 (take i old) (replicate (length old + 2) nil)))))
  = pre ++ [c1; stmt; c2] ++ post.
Proof.
  intros old i. subst old i.
  rewrite take_app_length, drop_S_middle.
  rewrite copyInto_nil_prefix by (rewrite length_app; lia).
  rewrite length_app. simpl.
  replace (length pre + S (length post) + 2 - length pre)
    with (S (S (S (length post)))) by lia.
  simpl.
  rewrite !insert_app_r_alt by lia.
  replace (length pre - length pre) with 0 by lia.
  replace (length pre + 1 - length pre) with 1 by lia.
  replace (length pre + 2 - length pre) with 2 by lia.
  simpl.
  replace (length pre + 3) with (length (pre ++ [c1; stmt; c2]))
    by (rewrite length_app; simpl; lia).
  change (pre ++ c1 :: stmt :: c2 :: replicate (length post) nil)
    with (pre ++ [c1; stmt; c2] ++ replicate (length post) nil).
  rewrite (app_assoc pre), copyInto_tail by apply length_replicate.
  by rewrite <- app_assoc.
Qed.

Lemma remove_slices (pre post : list ptr) (stmt : ptr) :
  let ss := pre ++ stmt :: post in
  let i := length pre in
  let ss1 := copyInto i (drop (i + 1) ss) ss in
  let ss2 := <[length ss1 - 1 := nil]> ss1 in
  take (length ss2 - 1) ss2 = pre ++ post.
Proof.
  intros ss i ss1 ss2.
  assert (Hss1 : ∃ x, ss1 = (pre ++ post) ++ [x]).
  { subst ss1 i ss. rewrite drop_S_middle. unfold copyInto.
    rewrite take_app_length.
    rewrite take_ge by (rewrite length_app; simpl; lia).
    destruct (drop (length pre + length post) (pre ++ stmt :: post)) as [|x [|y l]] eqn:Hd.
    - apply (f_equal length) in Hd. rewrite length_drop, length_app in Hd. simpl in Hd. lia.
    - exists x. by rewrite <- app_assoc.
    - apply (f_equal length) in Hd. rewrite length_drop, length_app in Hd. simpl in Hd. lia. }
  destruct Hss1 as [x Hss1]. subst ss2. rewrite Hss1.
  rewrite length_insert, length_app. simpl.
  replace (length (pre ++ post) + 1 - 1) with (length (pre ++ post)) by lia.
  rewrite take_insert_ge by lia.
  by rewrite take_app_length.
Qed.

(** ** Types are kept *)

Lemma typesKept_refl (h : gmap loc Statement) : typesKept h h.
Proof. intros a s Ha. by exists s. Qed.

Lemma typesKept_trans (h1 h2 h3 : gmap loc Statement) :
  typesKept h1 h2 → typesKept h2 h3 → typesKept h1 h3.
Proof.
  intros H12 H23 a s Ha.
  destruct (H12 a s Ha) as (s2 & Ha2 & Ht2).
  destruct (H23 a s2 Ha2) as (s3 & Ha3 & Ht3).
  exists s3. split; [done | congruence].
Qed.

Lemma typesKept_update (h : gmap loc Statement) (a : loc) (s s' : Statement) :
  h !! a = Some s → Type_ s' = Type_ s → typesKept h (<[a := s']> h).
Proof.
  intros Ha Ht b sb Hb. destruct (decide (a = b)) as [->|Hne].
  - exists s'. rewrite lookup_insert_eq. split; [done | congruence].
  - exists sb. by rewrite lookup_insert_ne.
Qed.

Lemma typesKept_alloc (h : gmap loc Statement) (c : loc) (s : Statement) :
  h !! c = None → typesKept h (<[c := s]> h).
Proof.
  intros Hc b sb Hb. exists sb.
  rewrite lookup_insert_ne by congruence. done.
Qed.

Lemma typesKept_insert (h h' : gmap loc Statement) (a : loc) (s' : Statement) :
  typesKept h h' →
  (∀ s0, h' !! a = Some s0 → Type_ s' = Type_ s0) →
  typesKept h (<[a := s']> h').
Proof.
  intros Hk Ht. apply (typesKept_trans _ h'); [done|].
  destruct (h' !! a) as [s0|] eqn:Ha.
  - eapply typesKept_update; eauto.
  - by apply typesKept_alloc.
Qed.

(** [typesKept] along a chain of allocations and type-preserving updates. *)
Ltac solve_typesKept :=
  repeat (apply typesKept_insert;
          [| let s0 := fresh "s0" in
             let Hs0 := fresh "Hs0" in
             intros s0 Hs0;
             repeat (rewrite lookup_insert_ne in Hs0 by congruence);
             try rewrite lookup_insert_eq in Hs0;
             simplify_eq; done ]);
  first [ assumption | apply typesKept_refl ].

Lemma typesKept_None (h h' : gmap loc Statement) (p : ptr) :
  typesKept h h' → load h' p = None → load h p = None.
Proof.
  intros Hk Hp. destruct p as [a|]; [|done]. simpl in *.
  destruct (h !! a) as [s|] eqn:Ha; [|done].
  destruct (Hk a s Ha) as (s' & Ha' & _). congruence.
Qed.

Lemma typesKept_notCommandAt (h h' : gmap loc Statement) (p : ptr) :
  typesKept h h' → notCommandAt h p → notCommandAt h' p.
Proof.
  intros Hk (s & Hp & Ht). destruct p as [a|]; [|done]. simpl in *.
  destruct (Hk a s Hp) as (s' & Ha' & Ht'). exists s'.
  split; [done | congruence].
Qed.

Lemma typesKept_isCommandAt (h h' : gmap loc Statement) (p : ptr) :
  typesKept h h' → isCommandAt h p → isCommandAt h' p.
Proof.
  intros Hk (s & Hp & Ht). destruct p as [a|]; [|done]. simpl in *.
  destruct (Hk a s Hp) as (s' & Ha' & Ht'). exists s'.
  split; [done | congruence].
Qed.

(** ** The editor *)

Section EditorSteps.
Context {SM : StatementMethods}.

Lemma wp_NormalizeTrailer (a : loc) (s : Statement)
    (Q : unit → World → Prop) (w : World) :
  heap w !! a = Some s →
  Q tt (mkWorld (<[a := set_Text (normalizedText s) s]> (heap w))
                (sqlFile w) (syscalls w)) →
  wp (NormalizeTrailer (Some a)) Q w.
Proof. intros Ha HQ. unfold NormalizeTrailer. by eapply wp_modify. Qed.

Lemma wp_makeDelimiterCommand (d db fp : string) (Q : ptr → World → Prop)
    (w : World) :
  (∀ a, heap w !! a = None →
        Q (Some a) (mkWorld (<[a := delimiterCommand d db fp]> (heap w))
                            (sqlFile w) (syscalls w))) →
  wp (makeDelimiterCommand d db fp) Q w.
Proof. intros HQ. unfold makeDelimiterCommand. by apply wp_alloc. Qed.

End EditorSteps.

(** One step of an action whose head is a primitive. *)
Ltac wp_step :=
  lazymatch goal with
  | |- wp (mret _) _ _ => apply wp_ret
  | |- wp (_ ≫= _) _ _ => apply wp_bind
  | |- wp getFile _ _ => apply wp_getFile
  | |- wp (setStatements _) _ _ => apply wp_setStatements
  | |- wp (setDirty _) _ _ => apply wp_setDirty
  | |- wp (appendStatement _) _ _ => apply wp_appendStatement
  | |- wp (makeDelimiterCommand _ _ _) _ _ =>
      apply wp_makeDelimiterCommand; intros ? ?;
      cbn [heap sqlFile syscalls] in *; fresh_facts
  | |- wp (deref (Some _)) _ _ =>
      eapply wp_deref; [cbn [load]; solve_lookup|]
  | |- wp (modify (Some _) _) _ _ => eapply wp_modify; [solve_lookup|]
  | |- wp (NormalizeTrailer (Some _)) _ _ =>
      eapply wp_NormalizeTrailer; [solve_lookup|]
  | |- wp (boundsCheck _) _ _ =>
      apply wp_boundsCheck; [apply bool_decide_eq_true_2; solve_bounds|]
  end; cbn [heap sqlFile syscalls FilePath Statements Dirty].

Ltac wp_steps := repeat wp_step.

Section EditorProperties.
Context {SM : StatementMethods}.

(** The pruning loop returns, and splits the slice into what it keeps and
    the trailing commands it drops. *)
Lemma pruneLoop_spec (h : gmap loc Statement) (rl : list ptr) :
  validPtrs h rl →
  ∃ rk rp, pruneLoop h rl = Ok rk ∧ rl = rp ++ rk
           ∧ Forall (isCommandAt h) rp
           ∧ (∀ p, head rk = Some p → notCommandAt h p).
Proof.
  induction 1 as [|p rl [s Hs] Hrl IH]; simpl.
  - exists [], []. by repeat split.
  - rewrite Hs. case_decide as Ht.
    + destruct IH as (rk & rp & -> & -> & Hrp & Hrk).
      exists rk, (p :: rp). repeat split; [|done].
      constructor; [by exists s | done].
    + exists (p :: rl), []. repeat split; [done|].
      intros ? [= <-]. by exists s.
Qed.

Lemma wp_pruneTrailingCommands (Q : unit → World → Prop) (w : World) :
  validPtrs (heap w) (Statements (sqlFile w)) →
  (∀ kept pruned,
      Statements (sqlFile w) = kept ++ pruned →
      Forall (isCommandAt (heap w)) pruned →
      (∀ p, last kept = Some p → notCommandAt (heap w) p) →
      Q tt (mkWorld (heap w)
                    (mkSQLFile (FilePath (sqlFile w)) kept
                               (Dirty (sqlFile w)))
                    (syscalls w))) →
  wp pruneTrailingCommands Q w.
Proof.
  intros Hv HQ. unfold wp, pruneTrailingCommands.
  destruct (pruneLoop_spec (heap w) (reverse (Statements (sqlFile w))))
    as (rk & rp & -> & Hrev & Hrp & Hrk).
  { by apply Forall_reverse. }
  simpl. apply (HQ (reverse rk) (reverse rp)).
  - rewrite <- reverse_app, <- Hrev. by rewrite reverse_involutive.
  - by apply Forall_reverse.
  - intros p Hp. apply Hrk. by rewrite <- last_reverse.
Qed.

Lemma indexOf_None (stmt : ptr) (l : list ptr) :
  indexOf stmt l = None ↔ stmt ∉ l.
Proof.
  induction l as [|p l IH]; simpl.
  - split; [intros _; apply not_elem_of_nil | done].
  - rewrite not_elem_of_cons. case_decide as Hp.
    + split; [done | intros [? _]; congruence].
    + rewrite fmap_None, IH. split; [intros ?; split; congruence | tauto].
Qed.

Lemma indexOf_Some (stmt : ptr) (l : list ptr) (i : nat) :
  indexOf stmt l = Some i →
  ∃ pre post, l = pre ++ stmt :: post ∧ length pre = i ∧ stmt ∉ pre.
Proof.
  revert i. induction l as [|p l IH]; intros i; simpl; [done|].
  case_decide as Hp.
  - intros [= <-]. subst p. exists [], l.
    repeat split. apply not_elem_of_nil.
  - intros Hi. apply fmap_Some in Hi as (j & Hj & ->).
    destruct (IH j Hj) as (pre & post & -> & <- & Hpre).
    exists (p :: pre), post. repeat split.
    rewrite not_elem_of_cons. split; [congruence | done].
Qed.

Lemma indexOf_app (stmt : ptr) (pre post : list ptr) :
  stmt ∉ pre → indexOf stmt (pre ++ stmt :: post) = Some (length pre).
Proof.
  induction pre as [|p pre IH]; simpl; intros Hpre.
  - by rewrite decide_True.
  - apply not_elem_of_cons in Hpre as [Hp Hpre].
    rewrite decide_False by congruence. by rewrite IH.
Qed.

Lemma wp_statementIndex (stmt : ptr) (i : nat) (Q : nat → World → Prop)
    (w : World) :
  indexOf stmt (Statements (sqlFile w)) = Some i →
  Q i w → wp (statementIndex stmt) Q w.
Proof.
  intros Hi HQ. unfold statementIndex. wp_steps. rewrite Hi. by wp_steps.
Qed.

Lemma statementIndex_not_found (stmt : ptr) (w : World) :
  stmt ∉ Statements (sqlFile w) →
  statementIndex stmt w
  = Panic (match load (heap w) stmt with
           | Some s => "Statement previously at " +:+ Location s
                       +:+ " not actually found in file"
           | None => nilDereference
           end).
Proof.
  intros Hnot. apply indexOf_None in Hnot.
  unfold statementIndex, mbind, M_bind, getFile. rewrite Hnot.
  unfold deref. by destruct (load (heap w) stmt).
Qed.

Lemma EditStatementText_not_found (stmt : ptr) (newText : string)
    (compound : bool) (w : World) :
  stmt ∉ Statements (sqlFile w) →
  ∃ msg, EditStatementText stmt newText compound w = Panic msg.
Proof.
  intros Hnot. eexists. unfold EditStatementText.
  unfold mbind at 1, M_bind at 1. cbn [setDirty].
  unfold mbind at 1, M_bind at 1.
  by rewrite statementIndex_not_found by done.
Qed.

Lemma RemoveStatement_not_found (stmt : ptr) (w : World) :
  stmt ∉ Statements (sqlFile w) →
  ∃ msg, RemoveStatement stmt w = Panic msg.
Proof.
  intros Hnot. eexists. unfold RemoveStatement.
  unfold mbind at 1, M_bind at 1.
  by rewrite statementIndex_not_found by done.
Qed.

(** C7. When the pointer [stmt] is not an entry of the file's statements,
    [EditStatementText] and [RemoveStatement] both end in a panic: neither
    returns.  The panic value is the error of [statementIndex], whose
    message carries [stmt.Location()]; for a [nil] pointer it is the
    run-time panic of evaluating [stmt.Location()]. *)
Theorem not_found_panics (w : World) (stmt : ptr) (newText : string)
    (compound : bool) :
  stmt ∉ Statements (sqlFile w) →
  let diagnostic :=
    match load (heap w) stmt with
    | Some s => "Statement previously at " +:+ Location s
                +:+ " not actually found in file"
    | None => nilDereference
    end in
  EditStatementText stmt newText compound w = Panic diagnostic
  ∧ RemoveStatement stmt w = Panic diagnostic.
Proof.
  intros Hnot diagnostic. split.
  - unfold EditStatementText.
    unfold mbind at 1, M_bind at 1. cbn [setDirty].
    unfold mbind at 1, M_bind at 1.
    rewrite statementIndex_not_found by done. done.
  - unfold RemoveStatement. unfold mbind at 1, M_bind at 1.
    by rewrite statementIndex_not_found by done.
Qed.

(** C5. When [stmt] is an entry of the file's statements and it is not the
    case that both its delimiter is [";"] and [compound] is set,
    [EditStatementText] returns; the only object it changes is [stmt], whose
    text becomes [newText] followed by the footer of its previous text and
    whose [Compound] becomes [compound]; the slice of statements is the
    same slice of the same pointers. *)
Theorem EditStatementText_in_place (w : World) (stmt : ptr) (s : Statement)
    (newText : string) (compound : bool) :
  stmt ∈ Statements (sqlFile w) →
  load (heap w) stmt = Some s →
  Delimiter s ≠ ";" ∨ compound = false →
  ∃ (a : loc) (w' : World),
    stmt = Some a
    ∧ EditStatementText stmt newText compound w = Ok (tt, w')
    ∧ Statements (sqlFile w') = Statements (sqlFile w)
    ∧ heap w'
      = <[a := set_Compound compound
                 (set_Text (newText +:+ snd (SplitTextBody s)) s)]> (heap w)
    ∧ FilePath (sqlFile w') = FilePath (sqlFile w)
    ∧ Dirty (sqlFile w') = true
    ∧ syscalls w' = syscalls w.
Proof.
  intros Hin Hs Hfast.
  destruct stmt as [a|]; [|done]. simpl in Hs. exists a.
  match goal with
  | |- ∃ w', _ ∧ ?m ?w0 = _ ∧ @?P w' =>
      cut (wp m (λ _ w', P w') w0)
  end.
  { intros Hwp. apply wp_elim in Hwp as ([] & w' & Heq & HP).
    by exists w'. }
  destruct (indexOf (Some a) (Statements (sqlFile w))) as [i|] eqn:Hi;
    [|by apply indexOf_None in Hi].
  unfold EditStatementText. wp_steps.
  eapply wp_statementIndex; [exact Hi|].
  wp_step. eapply wp_deref; [exact Hs|].
  replace (bool_decide (Delimiter s ≠ ";") || negb compound) with true.
  2: { destruct Hfast as [Hd| ->].
       - by rewrite bool_decide_eq_true_2.
       - by rewrite orb_true_r. }
  destruct (SplitTextBody s) as [body oldFooter]. wp_steps.
  by rewrite insert_insert_eq.
Qed.


Ltac new_command :=
  split;
  [ eapply typesKept_None; [eassumption | done]
  | eexists; split; [cbn [load]; solve_lookup | done] ].

Ltac shape_done :=
  cbn [heap sqlFile syscalls FilePath Statements Dirty];
  rewrite ?insert_insert_eq;
  repeat apply conj;
  [ done | done | done
  | cbn; by rewrite <- ?app_assoc
  | simpl; lia | simpl; lia
  | cbn [app]; repeat (constructor; [new_command|]); constructor
  | solve_typesKept ].

Lemma AddStatement_shape (w : World) (stmt : ptr) :
  validPtrs (heap w) (Statements (sqlFile w)) →
  is_Some (load (heap w) stmt) →
  wp (AddStatement stmt) (λ _ w', addShape w stmt w') w.
Proof.
  intros Hv [s Hs]. destruct stmt as [a|]; [|done]. simpl in Hs.
  destruct w as [h [fp ss d] log].
  cbn [heap sqlFile syscalls FilePath Statements Dirty] in *.
  unfold AddStatement.
  wp_step. apply wp_pruneTrailingCommands; [done|].
  cbn [heap sqlFile syscalls FilePath Statements Dirty].
  intros kept pruned Hss Hpruned Hlast.
  wp_steps.
  (* the last statement that is kept, and the heap [h1] after its trailer
     is normalized *)
  assert (Hphase : ∀ (Q : string * string → World → Prop),
    (∀ cur db h1, typesKept h h1 →
                  Q (cur, db) (mkWorld h1 (mkSQLFile fp kept d) log)) →
    wp (match last kept with
        | Some lastStmt =>
            l ← deref lastStmt;
            NormalizeTrailer lastStmt;;
            mret (Delimiter l, DefaultDatabase l)
        | None => mret (";", "")
        end) Q (mkWorld h (mkSQLFile fp kept d) log)).
  { intros Q HQ. destruct (last kept) as [lastStmt|] eqn:Hl.
    - destruct (Hlast _ eq_refl) as (l & Hload & Ht).
      destruct lastStmt as [al|]; [|done]. cbn [load] in Hload.
      wp_steps. apply HQ. by eapply typesKept_update.
    - wp_steps. apply HQ, typesKept_refl. }
  apply Hphase. clear Hphase. intros cur db h1 Hk1.
  destruct (Hk1 a s Hs) as (s1 & Hs1 & Ht1).
  wp_steps.
  destruct (Compound s1); destruct (decide (cur = ";")) as [Hcur|Hcur];
    rewrite ?(bool_decide_eq_true_2 _ Hcur),
            ?(bool_decide_eq_false_2 (cur = ";") Hcur),
            ?(bool_decide_eq_true_2 (cur ≠ ";") Hcur),
            ?(bool_decide_eq_false_2 (cur ≠ ";")) by tauto;
    cbn [andb negb]; wp_steps.
  - rewrite bool_decide_eq_true_2 by done. wp_steps.
    rename a0 into c1, a1 into c2.
    exists kept, pruned, [Some c1], [Some c2]. shape_done.
  - rewrite bool_decide_eq_true_2 by done. wp_steps.
    rename a0 into c2.
    exists kept, pruned, [], [Some c2]. shape_done.
  - rewrite bool_decide_eq_false_2 by tauto. wp_steps.
    exists kept, pruned, [], []. shape_done.
  - rewrite bool_decide_eq_false_2 by tauto. wp_steps.
    rename a0 into c1.
    exists kept, pruned, [Some c1], []. shape_done.
Qed.

(** C6. On a file whose slice has no [nil] entry, [AddStatement] of a
    statement returns; the new slice is [kept ++ pre ++ [stmt] ++ post],
    where [kept] is the old slice without its trailing Command-type
    statements [pruned], which are all of them: the last statement of
    [kept], the one before the insertion point, is not of type Command,
    before the call and after it.  [pre] and [post] hold objects created
    by the call. *)
Theorem AddStatement_prunes_trailing_commands (w : World) (stmt : ptr) :
  validPtrs (heap w) (Statements (sqlFile w)) →
  is_Some (load (heap w) stmt) →
  ∃ (w' : World) (kept pruned pre post : list ptr),
    AddStatement stmt w = Ok (tt, w')
    ∧ Statements (sqlFile w) = kept ++ pruned
    ∧ Forall (isCommandAt (heap w)) pruned
    ∧ Statements (sqlFile w') = kept ++ pre ++ [stmt] ++ post
    ∧ Forall (λ c, load (heap w) c = None) (pre ++ post)
    ∧ (∀ p, last kept = Some p →
            notCommandAt (heap w) p ∧ notCommandAt (heap w') p).
Proof.
  intros Hv Hs.
  pose proof (AddStatement_shape w stmt Hv Hs) as Hwp.
  apply wp_elim in Hwp as ([] & w' & Heq & Hshape).
  destruct Hshape
    as (kept & pruned & pre & post & Hss & Hpr & Hlast & Hss' & _ & _
        & Hnew & Hk).
  exists w', kept, pruned, pre, post. repeat apply conj; try done.
  - eapply Forall_impl; [exact Hnew|]. by intros c [Hc _].
  - intros p Hp. split; [by apply Hlast|].
    eapply typesKept_notCommandAt; [exact Hk|]. by apply Hlast.
Qed.

Lemma append_assoc (s1 s2 s3 : string) :
  (s1 +:+ s2) +:+ s3 = s1 +:+ (s2 +:+ s3).
Proof.
  induction s1 as [|c s1 IH]; [done|].
  exact (f_equal (String c) IH).
Qed.

Lemma existsb_hasContentAt_false (h : gmap loc Statement) (l : list ptr) :
  validPtrs h l →
  existsb (hasContentAt h) l = false ↔ Forall (inertAt h) l.
Proof.
  induction 1 as [|p l [s Hs] Hl IH]; simpl.
  - split; [constructor | done].
  - rewrite orb_false_iff, IH, Forall_cons. unfold hasContentAt, inertAt.
    rewrite Hs. apply and_iff_compat_r.
    rewrite andb_false_iff, !bool_decide_eq_false. split.
    + intros Ht. exists s. split; [done|].
      destruct (Type_ s); intuition congruence.
    + intros (s' & [= <-] & Ht).
      destruct (Type_ s); intuition congruence.
Qed.

Lemma wp_writeLoop (l : list ptr) (b : string) (keepFile : bool)
    (Q : string * bool → World → Prop) (w : World) :
  validPtrs (heap w) l →
  Q (b +:+ concatTexts (heap w) l,
     keepFile || existsb (hasContentAt (heap w)) l) w →
  wp (writeLoop l b keepFile) Q w.
Proof.
  intros Hv. revert b keepFile.
  induction Hv as [|p l [s Hs] Hl IH]; intros b keepFile; simpl.
  - intros HQ. wp_steps. revert HQ.
    rewrite orb_false_r.
    replace (b +:+ "") with b; [done|].
    clear. induction b as [|c b IH]; [done|].
    exact (f_equal (String c) IH).
  - intros HQ. wp_step. eapply wp_deref; [exact Hs|].
    apply IH. revert HQ. unfold hasContentAt at 1. rewrite Hs.
    rewrite append_assoc.
    by destruct (bool_decide (Type_ s ≠ StatementTypeNoop)
                 && bool_decide (Type_ s ≠ StatementTypeCommand)),
                keepFile.
Qed.

(** C1. On a file whose slice has no [nil] entry, [Write] returns.  It
    removes the file at [FilePath] and returns 0 exactly when every
    statement is a Noop or a Command; otherwise it writes the texts of all
    statements, concatenated in order, to [FilePath] and returns the
    length of that concatenation.  It makes no other call of package os. *)
Theorem Write_deletes_or_writes (os : OS) (w : World) :
  validPtrs (heap w) (Statements (sqlFile w)) →
  let path := FilePath (sqlFile w) in
  let body := concatTexts (heap w) (Statements (sqlFile w)) in
  let allInert := Forall (inertAt (heap w)) (Statements (sqlFile w)) in
  ∃ (n : Z) (err : option error) (w' : World),
    Write os w = Ok ((n, err), w')
    ∧ ((syscalls w' = syscalls w ++ [SysRemove path] ∧ n = 0%Z)
       ↔ allInert)
    ∧ (¬ allInert →
       syscalls w' = syscalls w ++ [SysWriteFile path body perm0666]
       ∧ n = Z.of_nat (String.length body))
    ∧ (allInert → err = removeResult os path)
    ∧ (¬ allInert → err = writeFileResult os path body perm0666)
    ∧ Dirty (sqlFile w')
      = (if err is None then false else Dirty (sqlFile w))
    ∧ heap w' = heap w
    ∧ Statements (sqlFile w') = Statements (sqlFile w).
Proof.
  intros Hv path body allInert.
  match goal with
  | |- ∃ n err w', ?m ?w0 = _ ∧ @?P n err w' =>
      cut (wp m (λ '(n, err) w', P n err w') w0)
  end.
  { intros Hwp. apply wp_elim in Hwp as ([n err] & w' & Heq & HP).
    by exists n, err, w'. }
  pose proof (existsb_hasContentAt_false _ _ Hv) as Hinert.
  fold allInert in Hinert.
  destruct w as [h [fp ss d] log].
  cbn [heap sqlFile syscalls FilePath Statements Dirty] in *. subst path.
  unfold Write. wp_steps. apply wp_writeLoop; [done|].
  cbn [heap sqlFile syscalls FilePath Statements Dirty]. fold body.
  cbn [orb]. change ("" +:+ body) with body.
  destruct (existsb (hasContentAt h) ss).
  - assert (¬ allInert) as Hno by (rewrite <- Hinert; done).
    unfold os_WriteFile. wp_step. wp_step.
    unfold wp at 1. cbn [heap sqlFile syscalls FilePath Statements Dirty].
    wp_steps.
    destruct (writeFileResult os fp body perm0666); wp_steps;
      (repeat apply conj; try done);
      intros [Hlog _]; by simplify_list_eq.
  - assert allInert as Hyes by (by apply Hinert).
    unfold Delete. wp_steps.
    unfold os_Remove, wp at 1.
    cbn [heap sqlFile syscalls FilePath Statements Dirty].
    wp_steps.
    destruct (removeResult os fp); wp_steps;
      (repeat apply conj; done).
Qed.


End EditorProperties.

(** ** Delimiters *)

Section Delimiters.
Context {SM : StatementMethods} {TK : Tokenizer}.

(** All that is asked of the tokenizer is to read the two commands that
    [makeDelimiterCommand] is called for. *)
Hypothesis declaredIn_slashes :
  declaredIn ("DELIMITER " +:+ "//" +:+ nl) = Some "//".
Hypothesis declaredIn_semicolon :
  declaredIn ("DELIMITER " +:+ ";" +:+ nl) = Some ";".

Lemma delimiterInEffect_foldl (h : gmap loc Statement) (l : list ptr) :
  delimiterInEffect h l = foldl (next h) ";" l.
Proof.
  unfold delimiterInEffect.
  induction l as [|p l IH] using rev_ind; [done|].
  rewrite reverse_snoc, foldl_snoc. simpl. rewrite IH. done.
Qed.

Lemma consistentFrom_app (h : gmap loc Statement) (cur : string)
    (l1 l2 : list ptr) :
  consistentFrom h cur (l1 ++ l2)
  ↔ consistentFrom h cur l1 ∧ consistentFrom h (foldl (next h) cur l1) l2.
Proof.
  revert cur. induction l1 as [|p l1 IH]; intros cur; simpl; [tauto|].
  rewrite IH. tauto.
Qed.

Lemma sameRoles_foldl (h h' : gmap loc Statement) (cur : string)
    (l : list ptr) :
  sameRoles h h' l → foldl (next h') cur l = foldl (next h) cur l.
Proof.
  revert cur. induction l as [|p l IH]; intros cur Hr; simpl; [done|].
  rewrite IH by (intros q Hq; apply Hr; by right).
  unfold next. by destruct (Hr p) as [-> _]; [left|].
Qed.

Lemma sameRoles_consistentFrom (h h' : gmap loc Statement) (cur : string)
    (l : list ptr) :
  sameRoles h h' l → consistentFrom h cur l → consistentFrom h' cur l.
Proof.
  revert cur. induction l as [|p l IH]; intros cur Hr; simpl; [done|].
  intros [Hp Hl]. destruct (Hr p) as [Hd Hs]; [by left|]. split.
  - intros s' Hs' Ht'. destruct (Hs s' Hs' Ht') as (s & Hload & Ht & <-).
    by apply Hp.
  - unfold next. rewrite Hd. apply IH; [|done].
    intros q Hq. apply Hr. by right.
Qed.

Lemma sameRoles_agree (h h' : gmap loc Statement) (l : list ptr) :
  (∀ p, p ∈ l → load h' p = load h p) → sameRoles h h' l.
Proof.
  intros Hag p Hp. rewrite (Hag p Hp). split; [done|].
  intros s' Hs' Ht'. by exists s'.
Qed.

Lemma sameRoles_update (h : gmap loc Statement) (a : loc)
    (s s' : Statement) (l : list ptr) :
  h !! a = Some s →
  Type_ s ≠ StatementTypeCommand →
  Type_ s' = Type_ s →
  Delimiter s' = Delimiter s →
  sameRoles h (<[a := s']> h) l.
Proof.
  intros Ha Ht Ht' Hd p _. destruct (decide (p = Some a)) as [->|Hne].
  - rewrite load_insert_eq. simpl. rewrite Ha. simpl. unfold declares.
    rewrite !decide_False by congruence. split; [done|].
    intros ? [= <-] _. by exists s.
  - rewrite load_insert_ne by done. split; [done|].
    intros s0 Hs0 Ht0. by exists s0.
Qed.

Lemma bracketed_nil (h : gmap loc Statement) : bracketed h [].
Proof. repeat split; constructor. Qed.

Lemma bracketed_app_l (h : gmap loc Statement) (l1 l2 : list ptr) :
  bracketed h (l1 ++ l2) → bracketed h l1.
Proof.
  intros (Hnd & Hv & Hc). repeat split.
  - by apply NoDup_app in Hnd as [? _].
  - by apply Forall_app in Hv as [? _].
  - by apply consistentFrom_app in Hc as [? _].
Qed.

Lemma bracketed_agree (h h' : gmap loc Statement) (l : list ptr) :
  (∀ p, p ∈ l → load h' p = load h p) → bracketed h l → bracketed h' l.
Proof.
  intros Hag (Hnd & Hv & Hc). repeat split; [done| |].
  - unfold validPtrs in *. rewrite Forall_forall in *.
    intros p Hp. rewrite Hag by done. by apply Hv.
  - eapply sameRoles_consistentFrom; [|done]. by apply sameRoles_agree.
Qed.

Lemma bracketed_update (h : gmap loc Statement) (a : loc)
    (s s' : Statement) (l : list ptr) :
  h !! a = Some s →
  Type_ s ≠ StatementTypeCommand →
  Type_ s' = Type_ s →
  Delimiter s' = Delimiter s →
  bracketed h l → bracketed (<[a := s']> h) l.
Proof.
  intros Ha Ht Ht' Hd (Hnd & Hv & Hc). repeat split; [done| |].
  - unfold validPtrs in *. eapply Forall_impl; [exact Hv|].
    intros p Hp. simpl in Hp. destruct (decide (p = Some a)) as [->|Hne].
    + by rewrite load_insert_eq.
    + by rewrite load_insert_ne.
  - eapply sameRoles_consistentFrom; [|done].
    by eapply sameRoles_update.
Qed.

Lemma bracketed_snoc (h : gmap loc Statement) (l : list ptr) (p : ptr)
    (s : Statement) :
  bracketed h l →
  p ∉ l →
  load h p = Some s →
  (Type_ s ≠ StatementTypeCommand → Delimiter s = foldl (next h) ";" l) →
  bracketed h (l ++ [p]).
Proof.
  intros (Hnd & Hv & Hc) Hp Hs Hd. repeat split.
  - apply NoDup_app. repeat split; [done| |apply NoDup_singleton].
    intros x Hx Hx'. apply list_elem_of_singleton in Hx'. by subst.
  - apply Forall_app. split; [done|]. by repeat constructor.
  - apply consistentFrom_app. split; [done|]. simpl. split; [|done].
    intros s' Hs' Ht'. rewrite Hs in Hs'. injection Hs' as <-. by apply Hd.
Qed.

Lemma bracketed_last (h : gmap loc Statement) (l : list ptr) (p : ptr)
    (s : Statement) :
  bracketed h l →
  last l = Some p →
  load h p = Some s →
  Type_ s ≠ StatementTypeCommand →
  Delimiter s = foldl (next h) ";" l.
Proof.
  intros (_ & _ & Hc) Hl Hs Ht.
  apply last_Some in Hl as [l' ->].
  apply consistentFrom_app in Hc as [_ [Hp _]].
  rewrite foldl_snoc. unfold next at 1. rewrite Hs. simpl.
  unfold declares. rewrite decide_False by done. by apply Hp.
Qed.

Lemma fresh_not_elem_of (h : gmap loc Statement) (l : list ptr) (c : loc) :
  validPtrs h l → h !! c = None → Some c ∉ l.
Proof.
  intros Hv Hc Hin. unfold validPtrs in Hv. rewrite Forall_forall in Hv.
  destruct (Hv _ Hin) as [s Hs]. simpl in Hs. congruence.
Qed.

Lemma next_delimiterCommand_slashes (h : gmap loc Statement) (cur : string)
    (p : ptr) (db fp : string) :
  load h p = Some (delimiterCommand "//" db fp) → next h cur p = "//".
Proof.
  intros Hp. unfold next. rewrite Hp. simpl. unfold declares. simpl.
  by rewrite declaredIn_slashes.
Qed.

Lemma next_delimiterCommand_semicolon (h : gmap loc Statement)
    (cur : string) (p : ptr) (db fp : string) :
  load h p = Some (delimiterCommand ";" db fp) → next h cur p = ";".
Proof.
  intros Hp. unfold next. rewrite Hp. simpl. unfold declares. simpl.
  by rewrite declaredIn_semicolon.
Qed.

Lemma next_notCommand (h : gmap loc Statement) (cur : string) (p : ptr)
    (s : Statement) :
  load h p = Some s → Type_ s ≠ StatementTypeCommand → next h cur p = cur.
Proof.
  intros Hp Ht. unfold next. rewrite Hp. simpl. unfold declares.
  by rewrite decide_False.
Qed.

Lemma bracketed_extend (h h' : gmap loc Statement) (kept added : list ptr) :
  bracketed h kept →
  (∀ q, q ∈ kept → load h' q = load h q) →
  NoDup added →
  (∀ q, q ∈ added → q ∉ kept) →
  validPtrs h' added →
  consistentFrom h' (foldl (next h) ";" kept) added →
  bracketed h' (kept ++ added).
Proof.
  intros Hb Hag Hnd Hdisj Hv Hc.
  apply (bracketed_agree h h') in Hb as (Hnd' & Hv' & Hc'); [|done].
  repeat split.
  - apply NoDup_app. repeat split; [done| |done].
    intros q Hq Hq'. by apply (Hdisj q).
  - by apply Forall_app.
  - apply consistentFrom_app. split; [done|].
    by rewrite (sameRoles_foldl h) by (by apply sameRoles_agree).
Qed.

(** The object found at an address of a heap built by updates. *)
Ltac eval_load Hs0 :=
  cbn [load] in Hs0;
  repeat (rewrite lookup_insert_ne in Hs0 by congruence);
  try rewrite lookup_insert_eq in Hs0;
  simplify_eq.

(** A statement of an explicit list has the delimiter in effect; for a
    command there is nothing to show. *)
Ltac consistent_here :=
  let s0 := fresh "s0" in
  let Hs0 := fresh "Hs0" in
  let Ht0 := fresh "Ht0" in
  intros s0 Hs0 Ht0; eval_load Hs0; done.

Lemma bracketed_remove (h : gmap loc Statement) (pre post : list ptr)
    (a : loc) (s : Statement) :
  bracketed h (pre ++ Some a :: post) →
  h !! a = Some s →
  Type_ s ≠ StatementTypeCommand →
  bracketed h (pre ++ post).
Proof.
  intros (Hnd & Hv & Hc) Hs Ht. repeat split.
  - apply NoDup_app in Hnd as (Hpre & Hdisj & Hpost).
    apply NoDup_cons in Hpost as [_ Hpost].
    apply NoDup_app. repeat split; [done| |done].
    intros q Hq Hq'. apply (Hdisj q Hq). by right.
  - apply Forall_app in Hv as [Hpre Hpost].
    apply Forall_cons in Hpost as [_ Hpost]. by apply Forall_app.
  - apply consistentFrom_app in Hc as [Hpre [_ Hpost]].
    apply consistentFrom_app. split; [done|].
    by rewrite (next_notCommand h _ (Some a) s) in Hpost.
Qed.

Lemma bracketed_rebracket (h : gmap loc Statement) (pre post : list ptr)
    (a c1 c2 : loc) (s s' : Statement) (db1 fp1 db2 fp2 : string) :
  bracketed h (pre ++ Some a :: post) →
  h !! a = Some s →
  Type_ s ≠ StatementTypeCommand →
  Delimiter s = ";" →
  h !! c1 = None → h !! c2 = None → c1 ≠ c2 →
  Type_ s' = Type_ s →
  Delimiter s' = "//" →
  bracketed (<[c2 := delimiterCommand ";" db2 fp2]>
               (<[a := s']> (<[c1 := delimiterCommand "//" db1 fp1]> h)))
            (pre ++ [Some c1; Some a; Some c2] ++ post).
Proof.
  intros (Hnd & Hv & Hc) Hs Ht Hd Hc1 Hc2 Hc12 Ht' Hd'.
  assert (Hac1 : a ≠ c1) by congruence.
  assert (Hac2 : a ≠ c2) by congruence.
  set (h' := <[c2 := _]> _).
  assert (Hnew1 : Some c1 ∉ pre ++ Some a :: post)
    by (by eapply fresh_not_elem_of).
  assert (Hnew2 : Some c2 ∉ pre ++ Some a :: post)
    by (by eapply fresh_not_elem_of).
  rewrite !elem_of_app, !elem_of_cons in Hnew1, Hnew2.
  apply NoDup_app in Hnd as (Hpre & Hdisj & Hpost).
  apply NoDup_cons in Hpost as [Hapost Hpost].
  assert (Hapre : Some a ∉ pre).
  { intros Hin. apply (Hdisj _ Hin). by left. }
  assert (Hag : ∀ q, q ∈ pre ++ post → load h' q = load h q).
  { intros q Hq. apply elem_of_app in Hq. unfold h'.
    rewrite !load_insert_ne; [done|..]; intros ->; tauto. }
  assert (Hl1 : h' !! c1 = Some (delimiterCommand "//" db1 fp1)).
  { unfold h'. solve_lookup. }
  assert (Hla : h' !! a = Some s').
  { unfold h'. solve_lookup. }
  assert (Hl2 : h' !! c2 = Some (delimiterCommand ";" db2 fp2)).
  { unfold h'. solve_lookup. }
  apply Forall_app in Hv as [Hvpre Hvpost].
  apply Forall_cons in Hvpost as [_ Hvpost].
  apply consistentFrom_app in Hc as [Hcpre [Hca Hcpost]].
  rewrite (next_notCommand h _ (Some a) s) in Hcpost by done.
  specialize (Hca s Hs Ht). rewrite Hd in Hca. rewrite <- Hca in Hcpost.
  repeat split.
  - apply NoDup_app. repeat split; [done| |].
    + intros q Hq. rewrite !elem_of_app, !elem_of_cons, elem_of_nil.
      intros [[->|[->|[->|[]]]]|Hq']; try tauto.
      apply (Hdisj q Hq). by right.
    + rewrite !NoDup_app, !NoDup_cons, !not_elem_of_cons.
      repeat split; try congruence; try apply not_elem_of_nil;
        try apply NoDup_nil_2; try done.
      intros q. rewrite !elem_of_cons, elem_of_nil.
      intros [->|[->|[->|[]]]]; tauto.
  - apply Forall_app. split.
    + eapply Forall_impl; [exact Hvpre|]. intros q Hq.
      (* entries of [pre] are entries of the old list *)
      simpl in Hq.
      destruct (decide (q = Some c1)) as [->|?]; [by eexists|].
      destruct (decide (q = Some a)) as [->|?]; [by eexists|].
      destruct (decide (q = Some c2)) as [->|?]; [by eexists|].
      unfold h'. by rewrite !load_insert_ne.
    + apply Forall_app. split; [repeat constructor; by eexists|].
      eapply Forall_impl; [exact Hvpost|]. intros q Hq. simpl in Hq.
      destruct (decide (q = Some c1)) as [->|?]; [by eexists|].
      destruct (decide (q = Some a)) as [->|?]; [by eexists|].
      destruct (decide (q = Some c2)) as [->|?]; [by eexists|].
      unfold h'. by rewrite !load_insert_ne.
  - apply consistentFrom_app. split.
    + eapply sameRoles_consistentFrom; [|exact Hcpre].
      apply sameRoles_agree. intros q Hq. apply Hag, elem_of_app. by left.
    + rewrite (sameRoles_foldl h).
      2: { apply sameRoles_agree. intros q Hq. apply Hag, elem_of_app.
           by left. }
      rewrite <- Hca. simpl.
      rewrite (next_delimiterCommand_slashes h' _ _ db1 fp1) by done.
      rewrite (next_notCommand h' _ (Some a) s') by (done || congruence).
      rewrite (next_delimiterCommand_semicolon h' _ _ db2 fp2) by done.
      repeat split.
      * intros s0 Hs0 Ht0. cbn [load] in Hs0. by simplify_eq.
      * intros s0 Hs0 Ht0. cbn [load] in Hs0. by simplify_eq.
      * intros s0 Hs0 Ht0. cbn [load] in Hs0. by simplify_eq.
      * eapply sameRoles_consistentFrom; [|exact Hcpost].
        apply sameRoles_agree. intros q Hq. apply Hag, elem_of_app.
        by right.
Qed.

(** [Some c] is not in the list [kept]: it is the statement known not to be
    there, or a new address. *)
Ltac not_kept Hb Hak :=
  match goal with
  | Hq : Some ?c ∈ _ |- False =>
      first [ exact (Hak Hq)
            | refine (fresh_not_elem_of _ _ c (proj1 (proj2 Hb)) _ Hq);
              assumption ]
  end.

(** The invariant of [kept] extends to [kept] followed by the statement and
    the commands that [AddStatement] appends; what is left to show is that
    a statement behind a new command has the delimiter of that command. *)
Ltac extend_with Hb Hak Hcur :=
  cbn [heap sqlFile syscalls FilePath Statements Dirty];
  rewrite ?insert_insert_eq, <- ?app_assoc; cbn [app];
  eapply bracketed_extend;
  [ exact Hb
  | let q := fresh "q" in
    let Hq := fresh "Hq" in
    intros q Hq; rewrite !load_insert_ne; [done|..]; intros ->;
    not_kept Hb Hak
  | rewrite ?NoDup_cons, ?not_elem_of_cons;
    repeat split; try congruence;
    first [ apply not_elem_of_nil | apply NoDup_nil_2 ]
  | let q := fresh "q" in
    let Hq := fresh "Hq" in
    let Hq' := fresh "Hq" in
    intros q Hq Hq'; rewrite ?elem_of_cons in Hq;
    repeat (destruct Hq as [->|Hq]; [not_kept Hb Hak|]);
    by apply elem_of_nil in Hq
  | repeat (constructor; [eexists; cbn [load]; solve_lookup|]); constructor
  | rewrite <- Hcur; simpl; repeat split; try consistent_here ].

Lemma AddStatement_bracketed (w : World) (a : loc) (s : Statement) :
  bracketed (heap w) (Statements (sqlFile w)) →
  Some a ∉ Statements (sqlFile w) →
  heap w !! a = Some s →
  wp (AddStatement (Some a))
     (λ _ w', bracketed (heap w') (Statements (sqlFile w'))) w.
Proof.
  intros Hb Hnot Hs. destruct w as [h [fp ss d] log].
  cbn [heap sqlFile syscalls FilePath Statements Dirty] in *.
  unfold AddStatement.
  wp_step. apply wp_pruneTrailingCommands; [apply Hb|].
  cbn [heap sqlFile syscalls FilePath Statements Dirty].
  intros kept pruned -> Hpruned Hlast.
  apply bracketed_app_l in Hb.
  assert (Hak : Some a ∉ kept) by (intros Hin; apply Hnot, elem_of_app; by left).
  clear Hnot Hpruned. wp_steps.
  assert (Hphase : ∀ (Q : string * string → World → Prop),
    (∀ cur db h1, bracketed h1 kept → h1 !! a = Some s →
                  cur = foldl (next h1) ";" kept →
                  Q (cur, db) (mkWorld h1 (mkSQLFile fp kept d) log)) →
    wp (match last kept with
        | Some lastStmt =>
            l ← deref lastStmt;
            NormalizeTrailer lastStmt;;
            mret (Delimiter l, DefaultDatabase l)
        | None => mret (";", "")
        end) Q (mkWorld h (mkSQLFile fp kept d) log)).
  { intros Q HQ. destruct (last kept) as [lastStmt|] eqn:Hl.
    - destruct (Hlast _ eq_refl) as (l & Hload & Ht).
      destruct lastStmt as [al|]; [|done]. cbn [load] in Hload.
      assert (al ≠ a).
      { intros ->. by apply Hak, last_Some_elem_of. }
      wp_steps. apply HQ.
      + by eapply bracketed_update.
      + by rewrite lookup_insert_ne.
      + rewrite (sameRoles_foldl h) by (by eapply sameRoles_update).
        by eapply bracketed_last.
    - wp_steps. apply last_None in Hl as ->. by apply HQ. }
  apply Hphase. clear Hphase Hb Hs Hlast h. intros cur db h Hb Hs Hcur.
  wp_steps.
  destruct (Compound s); destruct (decide (cur = ";")) as [Hsc|Hsc];
    rewrite ?(bool_decide_eq_true_2 _ Hsc),
            ?(bool_decide_eq_false_2 (cur = ";") Hsc),
            ?(bool_decide_eq_true_2 (cur ≠ ";") Hsc),
            ?(bool_decide_eq_false_2 (cur ≠ ";")) by tauto;
    cbn [andb negb]; wp_steps.
  - rewrite bool_decide_eq_true_2 by done. wp_steps.
    extend_with Hb Hak Hcur.
    erewrite next_delimiterCommand_slashes by (cbn [load]; solve_lookup).
    consistent_here.
  - rewrite bool_decide_eq_true_2 by done. wp_steps.
    extend_with Hb Hak Hcur.
  - rewrite bool_decide_eq_false_2 by tauto. wp_steps.
    extend_with Hb Hak Hcur.
  - rewrite bool_decide_eq_false_2 by tauto. wp_steps.
    extend_with Hb Hak Hcur.
    erewrite next_delimiterCommand_semicolon by (cbn [load]; solve_lookup).
    consistent_here.
Qed.

Lemma EditStatementText_bracketed (w : World) (a : loc) (s : Statement)
    (newText : string) (compound : bool) :
  bracketed (heap w) (Statements (sqlFile w)) →
  Some a ∈ Statements (sqlFile w) →
  heap w !! a = Some s →
  Type_ s ≠ StatementTypeCommand →
  wp (EditStatementText (Some a) newText compound)
     (λ _ w', bracketed (heap w') (Statements (sqlFile w'))) w.
Proof.
  intros Hb Hin Hs Ht.
  destruct (indexOf (Some a) (Statements (sqlFile w))) as [i|] eqn:Hi;
    [|by apply indexOf_None in Hi].
  destruct (indexOf_Some _ _ _ Hi) as (pre & post & Hss & Hlen & Hpre).
  destruct w as [h [fp ss d] log].
  cbn [heap sqlFile syscalls FilePath Statements Dirty] in *. subst ss i.
  unfold EditStatementText. wp_steps.
  eapply wp_statementIndex; [exact Hi|]. wp_steps.
  destruct (bool_decide (Delimiter s ≠ ";") || negb compound) eqn:Hfast.
  - destruct (SplitTextBody s) as [body oldFooter]. wp_steps.
    rewrite insert_insert_eq. by eapply bracketed_update.
  - apply orb_false_iff in Hfast as [Hd Hc].
    apply bool_decide_eq_false in Hd. apply negb_false_iff in Hc.
    assert (Delimiter s = ";") by (by destruct (decide (Delimiter s = ";"))).
    wp_steps. rewrite rebracket_slices, !insert_insert_eq.
    eapply bracketed_rebracket; try done.
Qed.

Lemma RemoveStatement_bracketed (w : World) (a : loc) (s : Statement) :
  bracketed (heap w) (Statements (sqlFile w)) →
  Some a ∈ Statements (sqlFile w) →
  heap w !! a = Some s →
  Type_ s ≠ StatementTypeCommand →
  wp (RemoveStatement (Some a))
     (λ _ w', bracketed (heap w') (Statements (sqlFile w'))) w.
Proof.
  intros Hb Hin Hs Ht.
  destruct (indexOf (Some a) (Statements (sqlFile w))) as [i|] eqn:Hi;
    [|by apply indexOf_None in Hi].
  destruct (indexOf_Some _ _ _ Hi) as (pre & post & Hss & Hlen & Hpre).
  destruct w as [h [fp ss d] log].
  cbn [heap sqlFile syscalls FilePath Statements Dirty] in *. subst ss i.
  unfold RemoveStatement. wp_steps.
  eapply wp_statementIndex; [exact Hi|]. wp_steps.
  rewrite remove_slices. by eapply bracketed_remove.
Qed.

Lemma reachable_bracketed (w : World) :
  reachableBy disciplined w → bracketed (heap w) (Statements (sqlFile w)).
Proof.
  induction 1 as [w Hnil|w a s Hw IH Ha|w c w' Hw IH Hc Hrun].
  - rewrite Hnil. apply bracketed_nil.
  - cbn [heap sqlFile syscalls]. eapply bracketed_agree; [|exact IH].
    intros p Hp. apply load_insert_ne. intros ->.
    by eapply fresh_not_elem_of; [apply IH| |exact Hp].
  - destruct c as [stmt|stmt newText compound|stmt]; simpl in Hc, Hrun.
    + destruct Hc as [[s Hs] Hnot]. destruct stmt as [a|]; [|done].
      pose proof (AddStatement_bracketed w a s IH Hnot Hs) as Hwp.
      unfold wp in Hwp. by rewrite Hrun in Hwp.
    + destruct Hc as (s & Hs & Ht). destruct stmt as [a|]; [|done].
      destruct (decide (Some a ∈ Statements (sqlFile w))) as [Hin|Hnot].
      2: { apply (EditStatementText_not_found _ newText compound) in Hnot
             as [msg Hp].
           congruence. }
      pose proof (EditStatementText_bracketed w a s newText compound
                    IH Hin Hs Ht) as Hwp.
      unfold wp in Hwp. by rewrite Hrun in Hwp.
    + destruct Hc as (s & Hs & Ht). destruct stmt as [a|]; [|done].
      destruct (decide (Some a ∈ Statements (sqlFile w))) as [Hin|Hnot].
      2: { apply RemoveStatement_not_found in Hnot as [msg Hp].
           congruence. }
      pose proof (RemoveStatement_bracketed w a s IH Hin Hs Ht) as Hwp.
      unfold wp in Hwp. by rewrite Hrun in Hwp.
Qed.

Lemma bracketed_statementDelimitersAsDeclared (w : World) :
  bracketed (heap w) (Statements (sqlFile w)) →
  statementDelimitersAsDeclared w.
Proof.
  intros (_ & _ & Hc) i p s Hi Hs Ht.
  rewrite <- (take_drop_middle _ _ _ Hi) in Hc.
  apply consistentFrom_app in Hc as [_ [Hp _]].
  rewrite delimiterInEffect_foldl. by apply Hp.
Qed.

(** C3, as amended.  In every file reachable from a file without statements
    by calls of [AddStatement] with a statement that is not yet in the file
    and calls of [EditStatementText] and [RemoveStatement] with a statement
    that is not of type Command, every statement that is not of type Command
    has the delimiter declared by the nearest DELIMITER command before it,
    or [";"] if there is none. *)
Theorem reachable_delimiters_as_declared (w : World) :
  reachableBy disciplined w → statementDelimitersAsDeclared w.
Proof.
  intros Hw. by apply bracketed_statementDelimitersAsDeclared,
                      reachable_bracketed.
Qed.

End Delimiters.

(** ** Naming *)

Lemma byteOf_nonneg (c : ascii) : (0 ≤ byteOf c)%Z.
Proof. unfold byteOf. lia. Qed.

Lemma DecodeRuneInString_nonneg (s : string) :
  (0 ≤ (DecodeRuneInString s).1)%Z.
Proof.
  assert (Hlor : ∀ x y : Z, (0 ≤ x → 0 ≤ y → 0 ≤ Z.lor x y)%Z)
    by (intros; by apply Z.lor_nonneg).
  assert (Hshl : ∀ x n : Z, (0 ≤ x → 0 ≤ Z.shiftl x n)%Z)
    by (intros; by apply Z.shiftl_nonneg).
  assert (Hland : ∀ x y : Z, (0 ≤ x → 0 ≤ Z.land x y)%Z)
    by (intros; apply Z.land_nonneg; by left).
  unfold DecodeRuneInString, RuneError.
  repeat match goal with
         | |- context [match ?x with _ => _ end] =>
             lazymatch x with
             | context [match _ with _ => _ end] => fail
             | _ => destruct x
             end
         end;
    cbn [fst];
    repeat first [ apply byteOf_nonneg | apply Hlor | apply Hshl | apply Hland
                 | lia ].
Qed.

Lemma rangeRunes_nonneg (skip : nat) (s : string) :
  Forall (λ r, 0 ≤ r)%Z (rangeRunes skip s).
Proof.
  revert skip. induction s as [|c s IH]; intros skip; [constructor|].
  destruct skip as [|k]; cbn [rangeRunes]; [|apply IH].
  pose proof (DecodeRuneInString_nonneg (String c s)) as Hr.
  destruct (DecodeRuneInString (String c s)) as [r width].
  constructor; [exact Hr | apply IH].
Qed.

Lemma runes_nonneg (s : string) : Forall (λ r, 0 ≤ r)%Z (runes s).
Proof. apply rangeRunes_nonneg. Qed.

Lemma asciiOf_byteOf (c : ascii) : asciiOf (byteOf c) = c.
Proof.
  unfold asciiOf, byteOf. by rewrite N2Z.id, ascii_N_embedding.
Qed.

(** A string of ASCII bytes is well-formed UTF-8. *)
Lemma wellFormedUTF8_ascii (s : string) :
  Forall (λ c, byteOf c < 128)%Z (list_ascii_of_string s) →
  wellFormedUTF8 s.
Proof.
  unfold wellFormedUTF8, runes.
  induction s as [|c s IH]; intros Hs; [done|].
  apply Forall_cons in Hs as [Hc Hs].
  cbn [rangeRunes DecodeRuneInString].
  rewrite (proj2 (Z.ltb_lt _ _) Hc). cbn [Nat.sub].
  unfold encodeRunes in *. cbn [fmap list_fmap concat].
  unfold AppendRune at 1.
  pose proof (byteOf_nonneg c) as Hc0.
  rewrite (proj2 (Z.leb_le 0 _) Hc0).
  rewrite (proj2 (Z.leb_le _ 127)) by lia. cbn [andb app].
  rewrite asciiOf_byteOf. cbn [string_of_list_ascii].
  f_equal. by apply IH.
Qed.

Section NamingProperties.
Context {UC : UnicodeCase}.

Lemma mapRunes_caseFlip_id (rs : list rune) :
  Forall (λ r, 0 ≤ r)%Z rs →
  Forall (λ r, caseReversible r = false) rs →
  mapRunes caseFlip true rs = rs.
Proof.
  induction 1 as [|r rs Hr Hrs IH]; intros Hnone; [done|].
  apply Forall_cons in Hnone as [Hrev Hnone]. cbn [mapRunes].
  assert (caseFlip true r = (r, true)) as ->.
  { unfold caseFlip, caseReversible in *.
    destruct (unicode_IsLower r); [by rewrite Hrev|].
    destruct (unicode_IsUpper r); [by rewrite Hrev|]. done. }
  rewrite (proj2 (Z.ltb_ge r 0)) by done. simpl. by rewrite IH.
Qed.

(** [genCaseTestFilename] leaves a name without a case-reversible rune as it
    is, when the name is well-formed UTF-8. *)
Lemma genCaseTestFilename_unchanged (str : string) :
  wellFormedUTF8 str →
  Forall (λ r, caseReversible r = false) (runes str) →
  genCaseTestFilename str = str.
Proof.
  intros Hwf Hnone. unfold genCaseTestFilename, strings_Map.
  rewrite mapRunes_caseFlip_id; [done | apply runes_nonneg | done].
Qed.

(** C8. The four outcomes of [IsCaseSensitiveFilesystem], where [alt] is
    the alternate path: when stat of [dir] succeeds and stat of [alt] fails
    with not-found it returns [(true, nil)]; when both succeed it returns no
    error, and [false] exactly when the two results are the same file; an
    error of stat of [dir], and an error of stat of [alt] other than
    not-found, make it return an error. *)
Theorem IsCaseSensitiveFilesystem_outcomes (os : OS) (dir : string) :
  let alt := filepath_Join (filepath_Dir dir)
                           (genCaseTestFilename (filepath_Base dir)) in
  let r := IsCaseSensitiveFilesystem os dir in
  (∀ dInfo err,
      statResult os dir = inl dInfo →
      statResult os alt = inr err →
      os_IsNotExist err = true →
      r = (true, None))
  ∧ (∀ dInfo aInfo,
      statResult os dir = inl dInfo →
      statResult os alt = inl aInfo →
      r.2 = None ∧ (r.1 = false ↔ os_SameFile dInfo aInfo = true))
  ∧ (∀ err,
      statResult os dir = inr err →
      r = (false, Some (probeError err)))
  ∧ (∀ dInfo err,
      statResult os dir = inl dInfo →
      statResult os alt = inr err →
      os_IsNotExist err = false →
      r = (false, Some (probeError err))).
Proof.
  intros alt r. subst r. unfold IsCaseSensitiveFilesystem. fold alt.
  split; [|split; [|split]].
  - intros dInfo err -> -> ->. done.
  - intros dInfo aInfo -> ->. cbn [fst snd]. split; [done|].
    apply negb_false_iff.
  - intros err ->. done.
  - intros dInfo err -> -> ->. done.
Qed.

Lemma os_SameFile_refl (fi : FileInfo) : os_SameFile fi fi = true.
Proof. unfold os_SameFile. by rewrite !bool_decide_eq_true_2. Qed.

(** C9, as amended.  When the base name of [dir] is well-formed UTF-8 and
    has no case-reversible rune, the alternate file name is the base name
    itself; when moreover stat gives, for the path rebuilt from
    [filepath.Dir] and [filepath.Base] of [dir], the file it gives for
    [dir], [IsCaseSensitiveFilesystem] returns [(false, nil)]. *)
Theorem probe_without_reversible_rune (os : OS) (dir : string)
    (info : FileInfo) :
  wellFormedUTF8 (filepath_Base dir) →
  Forall (λ r, caseReversible r = false) (runes (filepath_Base dir)) →
  statResult os dir = inl info →
  statResult os (filepath_Join (filepath_Dir dir) (filepath_Base dir))
  = inl info →
  genCaseTestFilename (filepath_Base dir) = filepath_Base dir
  ∧ IsCaseSensitiveFilesystem os dir = (false, None).
Proof.
  intros Hwf Hnone Hdir Halt.
  pose proof (genCaseTestFilename_unchanged _ Hwf Hnone) as Hgen.
  split; [done|]. unfold IsCaseSensitiveFilesystem.
  rewrite Hgen, Hdir, Halt. by rewrite os_SameFile_refl.
Qed.

Lemma removeIfBanned_spec (r : rune) (l : list rune) :
  removeIfBanned r l = if bool_decide (r ∈ l) then (-1)%Z else r.
Proof.
  induction l as [|bad l IH]; simpl; [done|].
  destruct (Z.eqb_spec r bad) as [->|Hne].
  - by rewrite bool_decide_eq_true_2 by left.
  - rewrite IH.
    rewrite (bool_decide_ext (r ∈ bad :: l) (r ∈ l)); [done|].
    rewrite elem_of_cons. tauto.
Qed.

Lemma removeSpecialChars_spec (r : rune) :
  removeSpecialChars r = if isSpecialChar r then (-1)%Z else r.
Proof.
  unfold removeSpecialChars, isSpecialChar. rewrite removeIfBanned_spec.
  by destruct (unicode_IsSpace r).
Qed.

Lemma mapRunes_removeSpecialChars (rs : list rune) :
  Forall (λ r, 0 ≤ r)%Z rs →
  mapRunes (pureMapping removeSpecialChars) tt rs
  = filter (λ r, isSpecialChar r = false) rs.
Proof.
  induction 1 as [|r rs Hr Hrs IH]; [done|].
  cbn [mapRunes pureMapping]. rewrite IH, removeSpecialChars_spec.
  destruct (isSpecialChar r) eqn:Hsp.
  - by rewrite filter_cons_False by (by rewrite Hsp).
  - rewrite filter_cons_True by done.
    by rewrite (proj2 (Z.ltb_ge r 0)) by done.
Qed.

Lemma FileNameForObject_example `{UnicodeCase} :
  FileNameForObject "My Table!" false = "MyTable!.sql".
Proof. by vm_compute. Qed.

(** C10, as amended.  [FileNameForObject] keeps the runes of [objectName]
    that are neither white space nor banned, takes ["symbols"] when nothing
    is left, lower-cases the name exactly when [lowerCase] is set, and
    appends [".sql"]; [FileNameForObject("My Table!", false)] is
    ["MyTable!.sql"]. *)
Theorem FileNameForObject_sanitizes (objectName : string) (lowerCase : bool) :
  FileNameForObject objectName lowerCase
  = (let kept :=
       encodeRunes (filter (λ r, isSpecialChar r = false) (runes objectName)) in
     let name := if decide (kept = "") then "symbols" else kept in
     (if lowerCase then strings_ToLower name else name) +:+ ".sql")
  ∧ FileNameForObject "My Table!" false = "MyTable!.sql".
Proof.
  split; [|by vm_compute].
  unfold FileNameForObject, NormalizeFileName, strings_Map.
  by rewrite mapRunes_removeSpecialChars by apply runes_nonneg.
Qed.

End NamingProperties.

(** ** The effects of the editor *)

(** ** Work in memory *)

Lemma sameDisk_refl (w : World) : sameDisk w w.
Proof. repeat split; [apply typesKept_refl | done]. Qed.

Lemma sameDisk_trans (w1 w2 w3 : World) :
  sameDisk w1 w2 → sameDisk w2 w3 → sameDisk w1 w3.
Proof.
  intros (Hf1 & Hl1 & Hk1 & Hd1) (Hf2 & Hl2 & Hk2 & Hd2).
  repeat split; [congruence | congruence | by eapply typesKept_trans | auto].
Qed.

Lemma inMemory_ret {A : Type} (a : A) : inMemory (mret a).
Proof. intros w a' w' [= <- <-]. apply sameDisk_refl. Qed.

Lemma inMemory_bind {A B : Type} (m : M A) (f : A → M B) :
  inMemory m → (∀ a, inMemory (f a)) → inMemory (m ≫= f).
Proof.
  intros Hm Hf w b w'. unfold mbind, M_bind.
  destruct (m w) as [[a w1]|msg] eqn:Hmw; [|done].
  intros Hfw. eapply sameDisk_trans; [by eapply Hm | by eapply Hf].
Qed.

Lemma inMemory_panic {A : Type} (msg : string) : inMemory (panic (A := A) msg).
Proof. by intros w a w'. Qed.

Lemma inMemory_getFile : inMemory getFile.
Proof. intros w a w' [= <- <-]. apply sameDisk_refl. Qed.

Lemma inMemory_deref (p : ptr) : inMemory (deref p).
Proof.
  intros w a w'. unfold deref. destruct (load (heap w) p); [|done].
  intros [= <- <-]. apply sameDisk_refl.
Qed.

Lemma inMemory_modify (p : ptr) (f : Statement → Statement) :
  (∀ s, Type_ (f s) = Type_ s) → inMemory (modify p f).
Proof.
  intros Hf w u w'. unfold modify. destruct p as [a|]; [|done].
  destruct (heap w !! a) as [s|] eqn:Ha; [|done].
  intros [= <- <-]. repeat split; [|done]. by eapply typesKept_update.
Qed.

Lemma inMemory_alloc (s : Statement) : inMemory (alloc s).
Proof.
  intros w p w' [= <- <-]. repeat split; [|done].
  apply typesKept_alloc, not_elem_of_dom, is_fresh.
Qed.

Lemma inMemory_setStatements (l : list ptr) : inMemory (setStatements l).
Proof.
  intros w u w' [= <- <-]. repeat split; [apply typesKept_refl | done].
Qed.

Lemma inMemory_setDirty : inMemory (setDirty true).
Proof. intros w u w' [= <- <-]. repeat split. apply typesKept_refl. Qed.

Lemma inMemory_boundsCheck (b : bool) : inMemory (boundsCheck b).
Proof. destruct b; [apply inMemory_ret | apply inMemory_panic]. Qed.

Lemma inMemory_appendStatement (p : ptr) : inMemory (appendStatement p).
Proof.
  apply inMemory_bind; [apply inMemory_getFile|].
  intros f. apply inMemory_setStatements.
Qed.

Lemma marksDirty_setDirty : marksDirty (setDirty true).
Proof. by intros w u w' [= <- <-]. Qed.

Lemma marksDirty_bind_r {A B : Type} (m : M A) (f : A → M B) :
  (∀ a, marksDirty (f a)) → marksDirty (m ≫= f).
Proof.
  intros Hf w b w'. unfold mbind, M_bind.
  destruct (m w) as [[a w1]|msg]; [|done]. apply Hf.
Qed.

Lemma marksDirty_bind_l {A B : Type} (m : M A) (f : A → M B) :
  marksDirty m → (∀ a, inMemory (f a)) → marksDirty (m ≫= f).
Proof.
  intros Hm Hf w b w'. unfold mbind, M_bind.
  destruct (m w) as [[a w1]|msg] eqn:Hmw; [|done].
  intros Hfw. apply (Hf a w1 b w' Hfw). by eapply Hm.
Qed.

(** The steps of an action that works in memory. *)
Ltac in_memory :=
  repeat first
    [ apply inMemory_ret
    | apply inMemory_panic
    | apply inMemory_getFile
    | apply inMemory_deref
    | apply inMemory_alloc
    | apply inMemory_setStatements
    | apply inMemory_setDirty
    | apply inMemory_boundsCheck
    | apply inMemory_appendStatement
    | apply inMemory_modify; done
    | apply inMemory_bind; [|intros ?]
    | match goal with
      | |- inMemory (match ?x with _ => _ end) => destruct x
      | |- inMemory (let '(_, _) := ?x in _) => destruct x
      end ].

(** ** Actions that may panic *)

Lemma wlp_ret {A : Type} (a : A) (Q : A → World → Prop) (w : World) :
  Q a w → wlp (mret a) Q w.
Proof. by intros HQ a' w' [= <- <-]. Qed.

Lemma wlp_bind {A B : Type} (m : M A) (f : A → M B) (Q : B → World → Prop)
    (w : World) :
  wlp m (λ a w', wlp (f a) Q w') w → wlp (m ≫= f) Q w.
Proof.
  intros Hm b w'. unfold mbind, M_bind.
  destruct (m w) as [[a w1]|msg] eqn:Hmw; [|done]. by apply Hm.
Qed.

Lemma wlp_const {A : Type} (m : M A) (P : Prop) (w : World) :
  P → wlp m (λ _ _, P) w.
Proof. by intros HP a w' _. Qed.

Lemma wlp_getFile (Q : SQLFile → World → Prop) (w : World) :
  Q (sqlFile w) w → wlp getFile Q w.
Proof. by intros HQ a w' [= <- <-]. Qed.

Lemma wlp_deref (p : ptr) (Q : Statement → World → Prop) (w : World) :
  (∀ s, load (heap w) p = Some s → Q s w) → wlp (deref p) Q w.
Proof.
  intros HQ s w'. unfold deref. destruct (load (heap w) p) eqn:Hp; [|done].
  intros [= <- <-]. by apply HQ.
Qed.

Lemma wlp_modify (p : ptr) (f : Statement → Statement)
    (Q : unit → World → Prop) (w : World) :
  (∀ a s, p = Some a → heap w !! a = Some s →
          Q tt (mkWorld (<[a := f s]> (heap w)) (sqlFile w) (syscalls w))) →
  wlp (modify p f) Q w.
Proof.
  intros HQ u w'. unfold modify. destruct p as [a|]; [|done].
  destruct (heap w !! a) as [s|] eqn:Ha; [|done].
  intros [= <- <-]. by eapply HQ.
Qed.

Section EditorEffects.
Context {SM : StatementMethods}.

Lemma RemoveStatement_at (w : World) (stmt : ptr) (pre post : list ptr) :
  Statements (sqlFile w) = pre ++ stmt :: post →
  stmt ∉ pre →
  RemoveStatement stmt w
  = Ok (tt, mkWorld (heap w)
                    (mkSQLFile (FilePath (sqlFile w)) (pre ++ post) true)
                    (syscalls w)).
Proof.
  intros Hss Hpre.
  pose proof (indexOf_app stmt pre post Hpre) as Hi. rewrite <- Hss in Hi.
  match goal with
  | |- ?m ?w0 = Ok (tt, ?w1) => cut (wp m (λ _ w', w' = w1) w0)
  end.
  { intros Hwp. apply wp_elim in Hwp as ([] & w' & Heq & ->). done. }
  destruct w as [h [fp ss d] log].
  cbn [heap sqlFile syscalls FilePath Statements Dirty] in *. subst ss.
  unfold RemoveStatement. wp_steps.
  eapply wp_statementIndex; [exact Hi|]. wp_steps.
  by rewrite remove_slices.
Qed.

(** X1. [RemoveStatement] of a pointer that is an entry of the slice returns
    and removes the first entry that is this pointer, and nothing else: the
    other entries keep their order, no object of the heap changes, no call
    of package os is made, and the file is marked dirty. *)
Theorem RemoveStatement_removes_first (w : World) (stmt : ptr) :
  stmt ∈ Statements (sqlFile w) →
  ∃ (pre post : list ptr) (w' : World),
    Statements (sqlFile w) = pre ++ stmt :: post
    ∧ (stmt ∉ pre)
    ∧ RemoveStatement stmt w = Ok (tt, w')
    ∧ Statements (sqlFile w') = pre ++ post
    ∧ heap w' = heap w
    ∧ FilePath (sqlFile w') = FilePath (sqlFile w)
    ∧ Dirty (sqlFile w') = true
    ∧ syscalls w' = syscalls w.
Proof.
  intros Hin.
  destruct (indexOf stmt (Statements (sqlFile w))) as [i|] eqn:Hi;
    [|by apply indexOf_None in Hi].
  destruct (indexOf_Some _ _ _ Hi) as (pre & post & Hss & Hlen & Hpre).
  exists pre, post. eexists. split; [done|]. split; [done|].
  split; [by apply RemoveStatement_at|]. done.
Qed.

(** [pruneLoop] on a slice that ends in commands. *)
Lemma pruneLoop_commands (h : gmap loc Statement) (rp rk : list ptr) :
  Forall (isCommandAt h) rp →
  (∀ p, head rk = Some p → notCommandAt h p) →
  pruneLoop h (rp ++ rk) = Ok rk.
Proof.
  intros Hrp Hrk. induction Hrp as [|p rp (s & Hs & Ht) _ IH]; simpl.
  - destruct rk as [|p rk]; [done|]. simpl.
    destruct (Hrk p eq_refl) as (s & -> & Ht). by rewrite decide_False.
  - rewrite Hs. by rewrite decide_True.
Qed.

Lemma wp_pruneTrailingCommands_to (kept pruned : list ptr)
    (Q : unit → World → Prop) (w : World) :
  Statements (sqlFile w) = kept ++ pruned →
  Forall (isCommandAt (heap w)) pruned →
  (∀ p, last kept = Some p → notCommandAt (heap w) p) →
  Q tt (mkWorld (heap w)
                (mkSQLFile (FilePath (sqlFile w)) kept (Dirty (sqlFile w)))
                (syscalls w)) →
  wp pruneTrailingCommands Q w.
Proof.
  intros Hss Hpr Hlast HQ. unfold wp, pruneTrailingCommands.
  rewrite Hss, reverse_app.
  rewrite (pruneLoop_commands _ _ (reverse kept)).
  - simpl. by rewrite reverse_involutive.
  - by apply Forall_reverse.
  - intros p Hp. apply Hlast.
    by rewrite <- (reverse_involutive kept), last_reverse.
Qed.

(** The conjuncts of [addEffect], on a heap built by updates. *)
Ltac effect_done :=
  cbn [heap sqlFile syscalls FilePath Statements Dirty];
  rewrite ?insert_insert_eq;
  repeat apply conj;
  [ cbn; by rewrite <- ?app_assoc
  | done | done | done
  | cbn [app]; repeat (constructor; [done|]); constructor
  | cbn [app]; rewrite ?NoDup_cons, ?not_elem_of_cons;
    repeat split; try congruence;
    first [ apply not_elem_of_nil | apply NoDup_nil_2 ]
  | first [ done | eexists; split; [done | cbn [load]; solve_lookup] ]
  | first [ by rewrite decide_True by done
          | rewrite decide_False by done;
            eexists; split; [done | cbn [load]; solve_lookup] ]
  | unfold addedStatement; solve_lookup
  | let p := fresh "p" in
    let l0 := fresh "l" in
    let Hl0 := fresh "Hl" in
    intros p l0 [= <-] Hl0; cbn [load] in *; simplify_eq; solve_lookup
  | let b := fresh "b" in
    let Hb1 := fresh "Hb" in
    let Hb2 := fresh "Hb" in
    let Hb3 := fresh "Hb" in
    intros [b|] Hb1 Hb2 Hb3; [|done]; cbn [load app] in *;
    rewrite ?not_elem_of_cons in Hb3;
    rewrite ?lookup_insert_ne; [done|..]; intros ->; intuition congruence
  | solve_typesKept ].

Lemma AddStatement_effect (w : World) (a : loc) (s : Statement)
    (kept pruned : list ptr) :
  Statements (sqlFile w) = kept ++ pruned →
  Forall (isCommandAt (heap w)) pruned →
  (∀ p, last kept = Some p → notCommandAt (heap w) p) →
  heap w !! a = Some s →
  last kept ≠ Some (Some a) →
  wp (AddStatement (Some a)) (λ _ w', addEffect w a s kept w') w.
Proof.
  intros Hss Hpruned Hlast Hs Hnl.
  destruct w as [h [fp ss d] log].
  cbn [heap sqlFile syscalls FilePath Statements Dirty] in *.
  unfold AddStatement.
  wp_step. eapply wp_pruneTrailingCommands_to; [done..|].
  cbn [heap sqlFile syscalls FilePath Statements Dirty].
  wp_steps. unfold addEffect, delimiterAtEnd, databaseAtEnd, lastStatement.
  cbn [heap sqlFile syscalls FilePath Statements Dirty].
  destruct (last kept) as [lastStmt|] eqn:Hl.
  - destruct (Hlast _ eq_refl) as (l & Hload & Ht).
    destruct lastStmt as [al|]; [|done]. cbn [load] in Hload.
    assert (al ≠ a) by (by intros ->).
    cbn [mbind option_bind load]. rewrite Hload. cbn [from_option].
    wp_steps.
    destruct (Compound s) eqn:Hc;
      destruct (decide (Delimiter l = ";")) as [Hcur|Hcur];
      unfold openingDelimiter;
      rewrite ?(bool_decide_eq_true_2 _ Hcur),
              ?(bool_decide_eq_false_2 (Delimiter l = ";") Hcur),
              ?(bool_decide_eq_true_2 (Delimiter l ≠ ";") Hcur),
              ?(bool_decide_eq_false_2 (Delimiter l ≠ ";")) by tauto;
      cbn [andb negb default from_option id]; wp_steps.
    + rewrite bool_decide_eq_true_2 by done. wp_steps.
      rename a0 into c1, a1 into c2.
      exists [Some c1], [Some c2]. effect_done.
    + rewrite bool_decide_eq_true_2 by done. wp_steps.
      rename a0 into c2.
      exists [], [Some c2]. effect_done.
    + rewrite bool_decide_eq_false_2 by tauto. wp_steps.
      exists [], []. effect_done.
    + rewrite bool_decide_eq_false_2 by tauto. wp_steps.
      rename a0 into c1.
      exists [Some c1], []. effect_done.
  - cbn [mbind option_bind from_option].
    wp_steps.
    destruct (Compound s) eqn:Hc; unfold openingDelimiter;
      rewrite ?(bool_decide_eq_true_2 (";" = ";")),
              ?(bool_decide_eq_false_2 (";" ≠ ";")) by tauto;
      cbn [andb negb default from_option id]; wp_steps.
    + rewrite bool_decide_eq_true_2 by done. wp_steps.
      rename a0 into c1, a1 into c2.
      exists [Some c1], [Some c2]. effect_done.
    + rewrite bool_decide_eq_false_2 by tauto. wp_steps.
      exists [], []. effect_done.
Qed.

Lemma AddStatement_returns_effect (w : World) (a : loc) (s : Statement)
    (kept : list ptr) :
  withoutTrailingCommands w kept →
  heap w !! a = Some s →
  Some a ∉ kept →
  ∃ w', AddStatement (Some a) w = Ok (tt, w') ∧ addEffect w a s kept w'.
Proof.
  intros (pruned & Hss & Hpr & Hlast) Hs Hnot.
  assert (Hnl : last kept ≠ Some (Some a)).
  { intros Hl. by apply Hnot, last_Some_elem_of. }
  pose proof (AddStatement_effect w a s kept pruned Hss Hpr Hlast Hs Hnl)
    as Hwp.
  apply wp_elim in Hwp as ([] & w' & Heq & He). by exists w'.
Qed.

(** X2. A statement that is not compound, added to a file whose last
    statement (commands at the end aside) has the delimiter [";"], or to a
    file without statements, is appended as it is: no DELIMITER command is
    inserted, and the statement gets the delimiter [";"]. *)
Theorem AddStatement_simple_at_default (w : World) (a : loc) (s : Statement)
    (kept : list ptr) :
  withoutTrailingCommands w kept →
  heap w !! a = Some s →
  Some a ∉ kept →
  Compound s = false →
  delimiterAtEnd w kept = ";" →
  ∃ w', AddStatement (Some a) w = Ok (tt, w')
        ∧ Statements (sqlFile w') = kept ++ [Some a]
        ∧ heap w' !! a
          = Some (addedStatement (FilePath (sqlFile w))
                                 (databaseAtEnd w kept) ";" s).
Proof.
  intros Hk Hs Hnot Hc Hcur.
  destruct (AddStatement_returns_effect w a s kept Hk Hs Hnot)
    as (w' & Heq & pre & post & Hss & _ & _ & _ & _ & _ & Hpre & Hpost
        & Ha & _).
  fold (lastStatement w kept) in Hpre, Hpost, Ha.
  fold (delimiterAtEnd w kept) in Hpre, Hpost, Ha.
  fold (databaseAtEnd w kept) in Hpre, Hpost, Ha.
  unfold openingDelimiter in *. rewrite Hc, Hcur in *.
  rewrite (bool_decide_eq_false_2 (";" ≠ ";")) in * by (intros H; by apply H).
  cbn in Hpre, Hpost, Ha. rewrite decide_True in Hpost by done.
  subst pre post.
  exists w'. by repeat split.
Qed.




Lemma Type_addedStatement (fp db d : string) (s : Statement) :
  Type_ (addedStatement fp db d s) = Type_ s.
Proof. done. Qed.

(** X5. [AddStatement] moves the statement into the file: its [File]
    becomes the path of the file and its [DefaultDatabase] that of the
    statement before it, or the empty string in a file without statements,
    whatever they were; its type and [Compound] are kept.  The trailer of
    the statement before it is normalized, and no other statement object
    that existed is changed. *)
Theorem AddStatement_adopts_context (w : World) (a : loc) (s : Statement)
    (kept : list ptr) :
  withoutTrailingCommands w kept →
  heap w !! a = Some s →
  Some a ∉ kept →
  ∃ (w' : World) (s' : Statement),
    AddStatement (Some a) w = Ok (tt, w')
    ∧ heap w' !! a = Some s'
    ∧ File s' = FilePath (sqlFile w)
    ∧ DefaultDatabase s' = databaseAtEnd w kept
    ∧ Type_ s' = Type_ s
    ∧ Compound s' = Compound s
    ∧ (∀ p l, last kept = Some p → load (heap w) p = Some l →
              load (heap w') p = Some (set_Text (normalizedText l) l))
    ∧ (∀ p, p ≠ Some a → last kept ≠ Some p → is_Some (load (heap w) p) →
            load (heap w') p = load (heap w) p).
Proof.
  intros Hk Hs Hnot.
  destruct (AddStatement_returns_effect w a s kept Hk Hs Hnot)
    as (w' & Heq & pre & post & _ & _ & _ & _ & Hnew & _ & _ & _
        & Ha & Hl & Hframe & _).
  exists w'. eexists. split; [done|]. split; [exact Ha|].
  repeat split; [done|].
  intros p Hp1 Hp2 [sp Hsp]. apply Hframe; [done..|].
  intros Hin. rewrite Forall_forall in Hnew.
  specialize (Hnew _ Hin). cbn in Hnew. congruence.
Qed.


(** X7. [RemoveStatement] does not take back the DELIMITER commands that
    [AddStatement] inserted: after [AddStatement] and [RemoveStatement] of
    the same statement the file holds [kept], its statements without the
    commands at their end, followed by the commands inserted.  These are
    none, and the file is [kept], exactly when the statement is not
    compound and the delimiter at the end is [";"]. *)
Theorem AddStatement_then_RemoveStatement (w : World) (a : loc)
    (s : Statement) (kept : list ptr) :
  withoutTrailingCommands w kept →
  heap w !! a = Some s →
  Some a ∉ kept →
  ∃ (w1 w2 : World) (cmds : list ptr),
    AddStatement (Some a) w = Ok (tt, w1)
    ∧ RemoveStatement (Some a) w1 = Ok (tt, w2)
    ∧ Statements (sqlFile w2) = kept ++ cmds
    ∧ Forall (λ c, load (heap w) c = None ∧ isCommandAt (heap w2) c) cmds
    ∧ (cmds = [] ↔ Compound s = false ∧ delimiterAtEnd w kept = ";")
    ∧ heap w2 = heap w1.
Proof.
  intros Hk Hs Hnot.
  destruct (AddStatement_returns_effect w a s kept Hk Hs Hnot)
    as (w1 & Heq1 & pre & post & Hss1 & _ & _ & _ & Hnew & _ & Hpre
        & Hpost & _).
  fold (lastStatement w kept) in Hpre, Hpost.
  fold (delimiterAtEnd w kept) in Hpre, Hpost.
  fold (databaseAtEnd w kept) in Hpre, Hpost.
  assert (Hpre' : Some a ∉ kept ++ pre).
  { rewrite elem_of_app. intros [?|Hin]; [done|].
    rewrite Forall_forall in Hnew.
    specialize (Hnew (Some a)). cbn in Hnew.
    rewrite Hnew in Hs; [done|]. apply elem_of_app. by left. }
  rewrite app_assoc in Hss1.
  exists w1. eexists. exists (pre ++ post).
  split; [done|]. split; [by apply RemoveStatement_at|].
  cbn [heap sqlFile syscalls FilePath Statements Dirty].
  assert (Hcmd : ∀ c d db fp,
             load (heap w1) c = Some (delimiterCommand d db fp) →
             isCommandAt (heap w1) c) by (intros; by eexists).
  unfold openingDelimiter in Hpre, Hpost.
  destruct (Compound s) eqn:Hc;
    destruct (decide (delimiterAtEnd w kept = ";")) as [Hcur|Hcur];
    rewrite ?(bool_decide_eq_true_2 _ Hcur),
            ?(bool_decide_eq_false_2 (_ = ";") Hcur),
            ?(bool_decide_eq_true_2 (_ ≠ ";") Hcur),
            ?(bool_decide_eq_false_2 (_ ≠ ";")) in Hpre, Hpost by tauto;
    cbn in Hpre, Hpost;
    destruct (decide _) as [Hfin|Hfin] in Hpost; try done;
    repeat match goal with
           | H : ∃ c, _ = [c] ∧ _ |- _ =>
               let c := fresh "c" in
               let Hc := fresh "Hc" in
               destruct H as (c & -> & Hc)
           | H : _ = [] |- _ => subst
           end;
    cbn [app] in *;
    (repeat apply conj;
     [ by rewrite <- app_assoc
     | repeat match goal with
              | H : Forall _ (_ :: _) |- _ =>
                  apply Forall_cons in H as [? H]
              end;
       repeat (constructor; [split; [done | by eapply Hcmd]|]); constructor
     | try done; intros _; split; congruence
     | try done; intros [? ?]; congruence
     | done ]).
Qed.

Lemma EditStatementText_in_place_at (w : World) (a : loc) (s : Statement)
    (newText : string) (compound : bool) :
  Some a ∈ Statements (sqlFile w) →
  heap w !! a = Some s →
  Delimiter s ≠ ";" ∨ compound = false →
  EditStatementText (Some a) newText compound w
  = Ok (tt, mkWorld
              (<[a := set_Compound compound
                        (set_Text (newText +:+ snd (SplitTextBody s)) s)]>
                 (heap w))
              (mkSQLFile (FilePath (sqlFile w)) (Statements (sqlFile w)) true)
              (syscalls w)).
Proof.
  intros Hin Hs Hfast.
  match goal with
  | |- ?m ?w0 = Ok (tt, ?w1) => cut (wp m (λ _ w', w' = w1) w0)
  end.
  { intros Hwp. apply wp_elim in Hwp as ([] & w' & Heq & ->). done. }
  destruct (indexOf (Some a) (Statements (sqlFile w))) as [i|] eqn:Hi;
    [|by apply indexOf_None in Hi].
  unfold EditStatementText. wp_steps.
  eapply wp_statementIndex; [exact Hi|].
  wp_step. eapply wp_deref; [exact Hs|].
  replace (bool_decide (Delimiter s ≠ ";") || negb compound) with true.
  2: { destruct Hfast as [Hd| ->].
       - by rewrite bool_decide_eq_true_2.
       - by rewrite orb_true_r. }
  destruct (SplitTextBody s) as [body oldFooter]. wp_steps.
  by rewrite insert_insert_eq.
Qed.

Lemma EditStatementText_rebracket_at (w : World) (a : loc) (s : Statement)
    (newText : string) (pre post : list ptr) :
  Statements (sqlFile w) = pre ++ Some a :: post →
  Some a ∉ pre →
  heap w !! a = Some s →
  Delimiter s = ";" →
  ∃ c1 c2 : loc,
    heap w !! c1 = None ∧ heap w !! c2 = None ∧ c1 ≠ c2
    ∧ EditStatementText (Some a) newText true w
      = Ok (tt, mkWorld
                  (<[c2 := delimiterCommand ";" (DefaultDatabase s)
                                            (FilePath (sqlFile w))]>
                     (<[a := set_Compound true
                               (set_Text (newText +:+ "//" +:+ nl)
                                  (set_Delimiter "//" s))]>
                        (<[c1 := delimiterCommand "//" (DefaultDatabase s)
                                                  (FilePath (sqlFile w))]>
                           (heap w))))
                  (mkSQLFile (FilePath (sqlFile w))
                             (pre ++ [Some c1; Some a; Some c2] ++ post)
                             true)
                  (syscalls w)).
Proof.
  intros Hss Hpre Hs Hd.
  assert (Hi : indexOf (Some a) (Statements (sqlFile w))
               = Some (length pre))
    by (rewrite Hss; by apply indexOf_app).
  match goal with
  | |- ∃ c1 c2, _ ∧ _ ∧ _ ∧ ?m ?w0 = Ok (tt, @?w1 c1 c2) =>
      cut (wp m (λ _ w', ∃ c1 c2, heap w !! c1 = None ∧ heap w !! c2 = None
                                  ∧ c1 ≠ c2 ∧ w' = w1 c1 c2) w0)
  end.
  { intros Hwp. apply wp_elim in Hwp as ([] & w' & Heq & c1 & c2 & HP).
    exists c1, c2. destruct HP as (? & ? & ? & ->). done. }
  destruct w as [h [fp ss d] log].
  cbn [heap sqlFile syscalls FilePath Statements Dirty] in *. subst ss.
  unfold EditStatementText. wp_steps.
  eapply wp_statementIndex; [exact Hi|].
  wp_step. eapply wp_deref; [exact Hs|].
  rewrite Hd. rewrite bool_decide_eq_false_2 by (intros Hne; by apply Hne).
  cbn [negb orb].
  wp_steps. rename a0 into c1, a1 into c2.
  exists c1, c2. rewrite rebracket_slices, !insert_insert_eq.
  by repeat split.
Qed.

(** X8. Once [EditStatementText] has put the pair of DELIMITER commands
    around a statement, a further edit of that statement, compound or not,
    changes the statement only: the commands are neither doubled nor taken
    away, and the statement keeps the delimiter ["//"]. *)
Theorem EditStatementText_brackets_once (w : World) (a : loc)
    (s : Statement) (t1 t2 : string) (compound : bool) :
  Some a ∈ Statements (sqlFile w) →
  heap w !! a = Some s →
  Delimiter s = ";" →
  let s1 := set_Compound true
              (set_Text (t1 +:+ "//" +:+ nl) (set_Delimiter "//" s)) in
  ∃ w1 w2 : World,
    EditStatementText (Some a) t1 true w = Ok (tt, w1)
    ∧ EditStatementText (Some a) t2 compound w1 = Ok (tt, w2)
    ∧ length (Statements (sqlFile w1)) = length (Statements (sqlFile w)) + 2
    ∧ Statements (sqlFile w2) = Statements (sqlFile w1)
    ∧ heap w2
      = <[a := set_Compound compound
                 (set_Text (t2 +:+ snd (SplitTextBody s1)) s1)]> (heap w1).
Proof.
  intros Hin Hs Hd s1.
  destruct (indexOf (Some a) (Statements (sqlFile w))) as [i|] eqn:Hi;
    [|by apply indexOf_None in Hi].
  destruct (indexOf_Some _ _ _ Hi) as (pre & post & Hss & _ & Hpre).
  destruct (EditStatementText_rebracket_at w a s t1 pre post Hss Hpre Hs Hd)
    as (c1 & c2 & Hc1 & Hc2 & Hc12 & Heq1).
  eexists. eexists. split; [exact Heq1|].
  assert (a ≠ c2) by congruence.
  split; [|cbn [heap sqlFile syscalls FilePath Statements Dirty]].
  - apply EditStatementText_in_place_at.
    + cbn [heap sqlFile syscalls FilePath Statements Dirty].
      rewrite !elem_of_app, !elem_of_cons. right. left. right. by left.
    + cbn [heap sqlFile syscalls FilePath Statements Dirty]. solve_lookup.
    + by left.
  - repeat apply conj; [|done..].
    rewrite Hss, !length_app. unfold ptr. simpl. lia.
Qed.

Lemma inMemory_pruneTrailingCommands : inMemory pruneTrailingCommands.
Proof.
  intros w u w'. unfold pruneTrailingCommands.
  destruct (pruneLoop _ _); [|done]. apply inMemory_setStatements.
Qed.

Lemma inMemory_statementIndex (stmt : ptr) : inMemory (statementIndex stmt).
Proof. unfold statementIndex. in_memory. Qed.

Lemma inMemory_makeDelimiterCommand (d db fp : string) :
  inMemory (makeDelimiterCommand d db fp).
Proof. apply inMemory_alloc. Qed.

Lemma inMemory_AddStatement (stmt : ptr) : inMemory (AddStatement stmt).
Proof.
  unfold AddStatement, NormalizeTrailer.
  apply inMemory_bind; [apply inMemory_pruneTrailingCommands|intros _].
  in_memory.
Qed.

Lemma inMemory_EditStatementText (stmt : ptr) (newText : string)
    (compound : bool) :
  inMemory (EditStatementText stmt newText compound).
Proof. unfold EditStatementText. in_memory. Qed.

Lemma inMemory_RemoveStatement (stmt : ptr) : inMemory (RemoveStatement stmt).
Proof. unfold RemoveStatement. in_memory. Qed.

Lemma marksDirty_AddStatement (stmt : ptr) : marksDirty (AddStatement stmt).
Proof.
  unfold AddStatement.
  repeat first
    [ apply marksDirty_setDirty
    | apply marksDirty_bind_r; intros ?
    | match goal with
      | |- marksDirty (let '(_, _) := ?x in _) => destruct x
      end ].
Qed.

Lemma marksDirty_EditStatementText (stmt : ptr) (newText : string)
    (compound : bool) :
  marksDirty (EditStatementText stmt newText compound).
Proof.
  unfold EditStatementText.
  apply marksDirty_bind_l; [apply marksDirty_setDirty|intros _]. in_memory.
Qed.

Lemma marksDirty_RemoveStatement (stmt : ptr) :
  marksDirty (RemoveStatement stmt).
Proof.
  unfold RemoveStatement. apply marksDirty_bind_r. intros i.
  apply marksDirty_bind_l; [apply marksDirty_setDirty|intros _]. in_memory.
Qed.

(** X9. [AddStatement], [EditStatementText] and [RemoveStatement] work in
    memory: a call that returns has marked the file dirty and has made no
    call of package os, so the file on disk is not rewritten; the path of
    the file is the same, and every statement object is still there, with
    the type it had. *)
Theorem mutators_work_in_memory (c : Call) (w w' : World) :
  perform c w = Ok (tt, w') →
  Dirty (sqlFile w') = true
  ∧ syscalls w' = syscalls w
  ∧ FilePath (sqlFile w') = FilePath (sqlFile w)
  ∧ typesKept (heap w) (heap w').
Proof.
  intros Hrun.
  assert (Hm : inMemory (perform c)).
  { destruct c; [apply inMemory_AddStatement
                |apply inMemory_EditStatementText
                |apply inMemory_RemoveStatement]. }
  assert (Hd : marksDirty (perform c)).
  { destruct c; [apply marksDirty_AddStatement
                |apply marksDirty_EditStatementText
                |apply marksDirty_RemoveStatement]. }
  destruct (Hm w tt w' Hrun) as (Hfp & Hlog & Hk & _).
  by pose proof (Hd w tt w' Hrun).
Qed.

(** ** Files without [nil] entries *)

Lemma wlp_pruneTrailingCommands (Q : unit → World → Prop) (w : World) :
  (∀ kept, Q tt (mkWorld (heap w)
                         (mkSQLFile (FilePath (sqlFile w)) kept
                                    (Dirty (sqlFile w)))
                         (syscalls w))) →
  wlp pruneTrailingCommands Q w.
Proof.
  intros HQ u w'. unfold pruneTrailingCommands.
  destruct (pruneLoop _ _) as [rk|]; [|done]. intros [= <- <-]. apply HQ.
Qed.

(** [AddStatement] returns only if its argument points to a statement. *)
Lemma AddStatement_returns_inv (stmt : ptr) (w w' : World) :
  AddStatement stmt w = Ok (tt, w') → is_Some (load (heap w) stmt).
Proof.
  revert w'.
  cut (wlp (AddStatement stmt) (λ _ _, is_Some (load (heap w) stmt)) w).
  { intros Hwlp w' Hrun. by apply (Hwlp tt w'). }
  unfold AddStatement.
  apply wlp_bind, wlp_pruneTrailingCommands. intros kept.
  apply wlp_bind, wlp_getFile. cbn [sqlFile Statements].
  apply wlp_bind. destruct (last kept) as [lastStmt|].
  - apply wlp_bind, wlp_deref. intros l Hl. cbn [heap] in Hl.
    apply wlp_bind, wlp_modify. intros al l' -> Hal. cbn [heap] in Hal.
    apply wlp_ret, wlp_bind, wlp_deref. cbn [heap]. intros s Hs.
    apply wlp_const. destruct stmt as [a|]; [|done]. cbn [load] in *.
    destruct (decide (al = a)) as [->|Hne]; [by eexists|].
    rewrite lookup_insert_ne in Hs by done. by eexists.
  - apply wlp_ret, wlp_bind, wlp_deref. cbn [heap]. intros s Hs.
    apply wlp_const. by eexists.
Qed.

Lemma validPtrs_typesKept (h h' : gmap loc Statement) (l : list ptr) :
  typesKept h h' → validPtrs h l → validPtrs h' l.
Proof.
  intros Hk Hv. eapply Forall_impl; [exact Hv|].
  intros [a|] [s Hs]; [|done]. cbn [load] in *.
  destruct (Hk a s Hs) as (s' & Hs' & _). by eexists.
Qed.

(** A call that returns leaves no [nil] entry in a slice that had none. *)
Lemma perform_validPtrs (c : Call) (w w' : World) :
  perform c w = Ok (tt, w') →
  validPtrs (heap w) (Statements (sqlFile w)) →
  validPtrs (heap w') (Statements (sqlFile w')).
Proof.
  intros Hrun Hv. unfold validPtrs in *.
  destruct c as [stmt|stmt newText compound|stmt]; cbn [perform] in Hrun.
  - pose proof (AddStatement_returns_inv _ _ _ Hrun) as Hs.
    pose proof (AddStatement_shape w stmt Hv Hs) as Hwp.
    unfold wp in Hwp. rewrite Hrun in Hwp.
    destruct Hwp as (kept & pruned & pre & post & Hss & _ & _ & Hss' & _ & _
                     & Hnew & Hk).
    rewrite Hss'. rewrite Hss in Hv. apply Forall_app in Hv as [Hv _].
    destruct Hs as [s Hs].
    rewrite !Forall_app. repeat split.
    + by eapply validPtrs_typesKept.
    + apply Forall_app in Hnew as [Hnew _].
      eapply Forall_impl; [exact Hnew|]. by intros c [_ (s' & -> & _)].
    + constructor; [|constructor].
      destruct stmt as [a|]; [|done]. cbn [load] in *.
      destruct (Hk a s Hs) as (s' & Hs' & _). by eexists.
    + apply Forall_app in Hnew as [_ Hnew].
      eapply Forall_impl; [exact Hnew|]. by intros c [_ (s' & -> & _)].
  - destruct (decide (stmt ∈ Statements (sqlFile w))) as [Hin|Hnot].
    2: { apply (EditStatementText_not_found _ newText compound) in Hnot
           as [msg Hp]. congruence. }
    pose proof Hv as Hv0. rewrite Forall_forall in Hv0.
    destruct (Hv0 _ Hin) as [s Hs]. destruct stmt as [a|]; [|done].
    cbn [load] in Hs.
    destruct (decide (Delimiter s = ";")) as [Hd|Hd];
      [destruct compound|].
    + destruct (indexOf (Some a) (Statements (sqlFile w))) as [i|] eqn:Hi;
        [|by apply indexOf_None in Hi].
      destruct (indexOf_Some _ _ _ Hi) as (pre & post & Hss & _ & Hpre).
      destruct (EditStatementText_rebracket_at w a s newText pre post
                  Hss Hpre Hs Hd)
        as (c1 & c2 & Hc1 & Hc2 & Hc12 & Heq).
      rewrite Heq in Hrun. injection Hrun as <-.
      cbn [heap sqlFile syscalls FilePath Statements Dirty].
      rewrite Hss in Hv. apply Forall_app in Hv as [Hpr Hpo].
      apply Forall_cons in Hpo as [_ Hpo].
      assert (Hk : typesKept (heap w)
                (<[c2 := delimiterCommand ";" (DefaultDatabase s)
                                          (FilePath (sqlFile w))]>
                   (<[a := set_Compound true
                             (set_Text (newText +:+ "//" +:+ nl)
                                (set_Delimiter "//" s))]>
                      (<[c1 := delimiterCommand "//" (DefaultDatabase s)
                                                (FilePath (sqlFile w))]>
                         (heap w))))).
      { assert (a ≠ c1) by congruence. assert (a ≠ c2) by congruence.
        solve_typesKept. }
      assert (a ≠ c2) by congruence.
      rewrite Forall_app. split; [by eapply validPtrs_typesKept|].
      cbn [app].
      do 3 (constructor; [eexists; cbn [load]; solve_lookup|]).
      by eapply validPtrs_typesKept.
    + rewrite (EditStatementText_in_place_at w a s newText false Hin Hs)
        in Hrun by (by right).
      injection Hrun as <-.
      cbn [heap sqlFile syscalls FilePath Statements Dirty].
      eapply validPtrs_typesKept; [|exact Hv]. by eapply typesKept_update.
    + rewrite (EditStatementText_in_place_at w a s newText compound Hin Hs)
        in Hrun by (by left).
      injection Hrun as <-.
      cbn [heap sqlFile syscalls FilePath Statements Dirty].
      eapply validPtrs_typesKept; [|exact Hv]. by eapply typesKept_update.
  - destruct (decide (stmt ∈ Statements (sqlFile w))) as [Hin|Hnot].
    2: { apply RemoveStatement_not_found in Hnot as [msg Hp]. congruence. }
    destruct (indexOf stmt (Statements (sqlFile w))) as [i|] eqn:Hi;
      [|by apply indexOf_None in Hi].
    destruct (indexOf_Some _ _ _ Hi) as (pre & post & Hss & _ & Hpre).
    rewrite (RemoveStatement_at w stmt pre post Hss Hpre) in Hrun.
    injection Hrun as <-.
    cbn [heap sqlFile syscalls FilePath Statements Dirty].
    rewrite Hss in Hv. apply Forall_app in Hv as [Hpr Hpo].
    apply Forall_cons in Hpo as [_ Hpo]. by apply Forall_app.
Qed.

Lemma reachable_validPtrs (w : World) :
  reachableBy anyCall w → validPtrs (heap w) (Statements (sqlFile w)).
Proof.
  induction 1 as [w Hnil|w a s Hw IH Ha|w c w' Hw IH Hc Hrun].
  - rewrite Hnil. constructor.
  - cbn [heap sqlFile syscalls]. eapply validPtrs_typesKept; [|exact IH].
    by apply typesKept_alloc.
  - by eapply perform_validPtrs.
Qed.

Lemma Write_returns (os : OS) (w : World) :
  validPtrs (heap w) (Statements (sqlFile w)) →
  ∃ n err w', Write os w = Ok ((n, err), w').
Proof.
  intros Hv.
  cut (wp (Write os) (λ _ _, True) w).
  { intros Hwp. apply wp_elim in Hwp as ([n err] & w' & Heq & _).
    by exists n, err, w'. }
  unfold Write. wp_steps. apply wp_writeLoop; [done|].
  destruct (_ || _).
  - unfold os_WriteFile. wp_step. wp_step. unfold wp at 1.
    cbn [heap sqlFile syscalls FilePath Statements Dirty]. wp_steps.
    destruct (writeFileResult _ _ _ _); by wp_steps.
  - unfold Delete. wp_steps. unfold os_Remove, wp at 1.
    cbn [heap sqlFile syscalls FilePath Statements Dirty]. wp_steps.
    destruct (removeResult _ _); by wp_steps.
Qed.

(** X10. Whatever calls of [AddStatement], [EditStatementText] and
    [RemoveStatement] have built a file, starting without statements, and
    whatever their arguments were, no entry of its slice is [nil] or
    dangling, and [Write] returns on it: it does not panic. *)
Theorem Write_returns_on_reachable (os : OS) (w : World) :
  reachableBy anyCall w →
  validPtrs (heap w) (Statements (sqlFile w))
  ∧ ∃ n err w', Write os w = Ok ((n, err), w').
Proof.
  intros Hw. pose proof (reachable_validPtrs w Hw) as Hv.
  split; [done | by apply Write_returns].
Qed.

End EditorEffects.

Section DelimiterEffects.
Context {SM : StatementMethods} {TK : Tokenizer}.

Hypothesis declaredIn_slashes :
  declaredIn ("DELIMITER " +:+ "//" +:+ nl) = Some "//".
Hypothesis declaredIn_semicolon :
  declaredIn ("DELIMITER " +:+ ";" +:+ nl) = Some ";".

Lemma validPtrs_withoutTrailingCommands (w : World) :
  validPtrs (heap w) (Statements (sqlFile w)) →
  ∃ kept, withoutTrailingCommands w kept.
Proof.
  intros Hv.
  destruct (pruneLoop_spec (heap w) (reverse (Statements (sqlFile w))))
    as (rk & rp & _ & Hrev & Hrp & Hrk).
  { by apply Forall_reverse. }
  exists (reverse rk), (reverse rp). repeat split.
  - by rewrite <- reverse_app, <- Hrev, reverse_involutive.
  - by apply Forall_reverse.
  - intros p Hp. apply Hrk. by rewrite <- last_reverse.
Qed.

(** X11. In a file built by disciplined calls, [AddStatement] of a statement
    that is not of type Command and not yet in the file returns, and leaves
    the file in the default-delimiter state: the delimiter in effect behind
    its last statement is [";"]. *)
Theorem AddStatement_ends_in_default_delimiter (w : World) (a : loc)
    (s : Statement) :
  reachableBy disciplined w →
  heap w !! a = Some s →
  Some a ∉ Statements (sqlFile w) →
  Type_ s ≠ StatementTypeCommand →
  ∃ w', AddStatement (Some a) w = Ok (tt, w')
        ∧ delimiterInEffect (heap w') (Statements (sqlFile w')) = ";".
Proof.
  intros Hw Hs Hnot Ht.
  pose proof (reachable_bracketed declaredIn_slashes declaredIn_semicolon
                w Hw) as Hb.
  destruct (validPtrs_withoutTrailingCommands w) as [kept Hk]; [apply Hb|].
  pose proof Hk as (pruned & Hss & _ & Hlast).
  rewrite Hss in Hb, Hnot. apply bracketed_app_l in Hb.
  assert (Hak : Some a ∉ kept).
  { intros Hin. apply Hnot, elem_of_app. by left. }
  destruct (AddStatement_returns_effect w a s kept Hk Hs Hak)
    as (w' & Heq & pre & post & Hss' & _ & _ & _ & Hnew & _ & Hpre & Hpost
        & Ha & Hl & Hframe & _).
  exists w'. split; [done|].
  rewrite delimiterInEffect_foldl, Hss'.
  fold (lastStatement w kept) in Hpre, Hpost, Ha.
  fold (delimiterAtEnd w kept) in Hpre, Hpost, Ha.
  fold (databaseAtEnd w kept) in Hpre, Hpost, Ha.
  destruct (decide _) as [Hfin|Hfin] in Hpost.
  2: { destruct Hpost as (c & -> & Hc).
       rewrite !app_assoc, foldl_snoc.
       by eapply next_delimiterCommand_semicolon. }
  subst post. rewrite app_nil_r, app_assoc, foldl_snoc.
  rewrite (next_notCommand (heap w') _ (Some a) _ Ha)
    by (by rewrite Type_addedStatement).
  destruct (openingDelimiter _ _) as [d|] eqn:Hop.
  - destruct Hpre as (c & -> & Hc). cbn in Hfin. subst d.
    rewrite foldl_snoc. by eapply next_delimiterCommand_semicolon.
  - subst pre. rewrite app_nil_r. cbn in Hfin.
    rewrite (sameRoles_foldl (heap w)).
    2: { intros p Hp. destruct (decide (last kept = Some p)) as [Hlp|Hlp].
         - destruct (Hlast p Hlp) as (l & Hload & Htl).
           rewrite (Hl p l Hlp Hload), Hload. cbn. unfold declares.
           rewrite !decide_False by done. split; [done|].
           intros s' [= <-] _. by exists l.
         - rewrite Hframe; [|by intros ->|done|apply not_elem_of_nil].
           split; [done|]. intros s' Hs' Ht'. by exists s'. }
    destruct (last kept) as [p|] eqn:Hlp.
    + destruct (Hlast p eq_refl) as (l & Hload & Htl).
      rewrite <- (bracketed_last (heap w) kept p l Hb Hlp Hload Htl).
      unfold delimiterAtEnd, lastStatement in Hfin. rewrite Hlp in Hfin.
      cbn in Hfin. by rewrite Hload in Hfin.
    + by apply last_None in Hlp as ->.
Qed.

End DelimiterEffects.

(** ** UTF-8: bit operations as arithmetic *)

Lemma lor_add (n hi lo : Z) :
  (0 ≤ n → 0 ≤ lo < 2 ^ n → hi mod 2 ^ n = 0 → Z.lor hi lo = hi + lo)%Z.
Proof.
  intros Hn Hlo Hhi.
  pose proof (Z.add_lor_land hi lo) as Hadd.
  assert (Hland : Z.land hi lo = 0%Z); [|lia].
  apply Z.bits_inj'. intros i Hi. rewrite Z.land_spec, Z.bits_0.
  destruct (Z.lt_ge_cases i n) as [Hlt|Hge].
  - assert (Hhi' : hi = Z.shiftl (hi / 2 ^ n) n).
    { rewrite Z.shiftl_mul_pow2 by done.
      pose proof (Z.div_mod hi (2 ^ n)). lia. }
    rewrite Hhi', Z.shiftl_spec_low by done. done.
  - destruct (Z.eq_dec lo 0%Z) as [->|Hne].
    + by rewrite Z.bits_0, andb_false_r.
    + rewrite (Z.bits_above_log2 lo i), andb_false_r; [done|lia|].
      assert (Z.log2 lo < n)%Z by (apply Z.log2_lt_pow2; lia). lia.
Qed.

Lemma land_63 (b : Z) : Z.land b 63 = (b mod 64)%Z.
Proof. exact (Z.land_ones b 6 ltac:(lia)). Qed.

Lemma land_31 (b : Z) : Z.land b 31 = (b mod 32)%Z.
Proof. exact (Z.land_ones b 5 ltac:(lia)). Qed.

Lemma land_15 (b : Z) : Z.land b 15 = (b mod 16)%Z.
Proof. exact (Z.land_ones b 4 ltac:(lia)). Qed.

Lemma land_7 (b : Z) : Z.land b 7 = (b mod 8)%Z.
Proof. exact (Z.land_ones b 3 ltac:(lia)). Qed.

Lemma shiftr_6 (r : Z) : Z.shiftr r 6 = (r / 64)%Z.
Proof. exact (Z.shiftr_div_pow2 r 6 ltac:(lia)). Qed.

Lemma shiftr_12 (r : Z) : Z.shiftr r 12 = (r / 4096)%Z.
Proof. exact (Z.shiftr_div_pow2 r 12 ltac:(lia)). Qed.

Lemma shiftr_18 (r : Z) : Z.shiftr r 18 = (r / 262144)%Z.
Proof. exact (Z.shiftr_div_pow2 r 18 ltac:(lia)). Qed.

Lemma shiftl_6 (r : Z) : Z.shiftl r 6 = (r * 64)%Z.
Proof. exact (Z.shiftl_mul_pow2 r 6 ltac:(lia)). Qed.

Lemma shiftl_12 (r : Z) : Z.shiftl r 12 = (r * 4096)%Z.
Proof. exact (Z.shiftl_mul_pow2 r 12 ltac:(lia)). Qed.

Lemma shiftl_18 (r : Z) : Z.shiftl r 18 = (r * 262144)%Z.
Proof. exact (Z.shiftl_mul_pow2 r 18 ltac:(lia)). Qed.

(** Arithmetic with division and remainder by constants. *)
Ltac arith := Z.div_mod_to_equations; lia.

Ltac bits_to_arith :=
  rewrite ?shiftr_6, ?shiftr_12, ?shiftr_18, ?shiftl_6, ?shiftl_12,
          ?shiftl_18, ?land_63, ?land_31, ?land_15, ?land_7.

Lemma byteOf_lt (c : ascii) : (byteOf c < 256)%Z.
Proof.
  unfold byteOf. pose proof (N_ascii_bounded c). lia.
Qed.

Lemma byteOf_asciiOf (z : Z) : (0 ≤ z < 256 → byteOf (asciiOf z) = z)%Z.
Proof.
  intros Hz. unfold byteOf, asciiOf.
  rewrite N_ascii_embedding by lia. lia.
Qed.

Lemma validRune_spec (r : rune) :
  validRune r = true
  ↔ (0 ≤ r ≤ 1114111 ∧ ¬ (55296 ≤ r ≤ 57343))%Z.
Proof.
  unfold validRune.
  rewrite !andb_true_iff, negb_true_iff, andb_false_iff.
  rewrite !Z.leb_le, !Z.leb_gt. lia.
Qed.

Lemma lor_16 (hi lo : Z) :
  (0 ≤ lo < 16 → hi mod 16 = 0 → Z.lor hi lo = hi + lo)%Z.
Proof. apply (lor_add 4). lia. Qed.

Lemma lor_64 (hi lo : Z) :
  (0 ≤ lo < 64 → hi mod 64 = 0 → Z.lor hi lo = hi + lo)%Z.
Proof. apply (lor_add 6). lia. Qed.

Lemma lor_4096 (hi lo : Z) :
  (0 ≤ lo < 4096 → hi mod 4096 = 0 → Z.lor hi lo = hi + lo)%Z.
Proof. apply (lor_add 12). lia. Qed.

Lemma lor_262144 (hi lo : Z) :
  (0 ≤ lo < 262144 → hi mod 262144 = 0 → Z.lor hi lo = hi + lo)%Z.
Proof. apply (lor_add 18). lia. Qed.

(** Every [Z.lor] of two numbers without a common bit, as their sum. *)
Ltac lor_to_add :=
  repeat match goal with
         | |- context [Z.lor ?a ?b] =>
             first [ rewrite (lor_16 a b) by arith
                   | rewrite (lor_64 a b) by arith
                   | rewrite (lor_4096 a b) by arith
                   | rewrite (lor_262144 a b) by arith ]
         end.

(** The comparisons of a goal, decided by arithmetic. *)
Ltac tests :=
  repeat (match goal with
          | |- context [(?a <? ?b)%Z] =>
              destruct (Z.ltb_spec a b); try (exfalso; arith)
          | |- context [(?a <=? ?b)%Z] =>
              destruct (Z.leb_spec a b); try (exfalso; arith)
          | |- context [(?a =? ?b)%Z] =>
              destruct (Z.eqb_spec a b); try (exfalso; arith)
          end; cbn [andb orb negb]).

Lemma DecodeRuneInString_AppendRune (r : rune) (rest : string) :
  DecodeRuneInString (string_of_list_ascii (AppendRune r) +:+ rest)
  = (sanitize r, length (AppendRune r)).
Proof.
  unfold sanitize, validRune, AppendRune, encode3, RuneError. tests.
  all: cbn [string_of_list_ascii length]; cbv [String.append].
  all: try match goal with
           | |- _ = (65533%Z, _) => vm_compute; reflexivity
           end.
  all: bits_to_arith; lor_to_add.
  all: cbn [DecodeRuneInString]; rewrite ?byteOf_asciiOf by arith.
  all: unfold isCont; unfold acceptRange, inRange; tests.
  all: bits_to_arith; lor_to_add.
  all: f_equal; arith.
Qed.

Lemma DecodeRuneInString_valid (s : string) :
  validRune (DecodeRuneInString s).1 = true.
Proof.
  unfold DecodeRuneInString, RuneError.
  destruct s as [|c0 s]; [done|].
  pose proof (byteOf_nonneg c0). pose proof (byteOf_lt c0).
  generalize dependent (byteOf c0). intros b0 ? ?.
  unfold acceptRange, isCont, inRange.
  destruct s as [|c1 s].
  { tests; cbn [fst]; apply validRune_spec; lia. }
  pose proof (byteOf_nonneg c1). pose proof (byteOf_lt c1).
  generalize dependent (byteOf c1). intros b1 ? ?.
  destruct s as [|c2 s].
  { tests; cbn [fst]; apply validRune_spec; bits_to_arith; lor_to_add;
      arith. }
  pose proof (byteOf_nonneg c2). pose proof (byteOf_lt c2).
  generalize dependent (byteOf c2). intros b2 ? ?.
  destruct s as [|c3 s].
  { tests; cbn [fst]; apply validRune_spec; bits_to_arith; lor_to_add;
      arith. }
  pose proof (byteOf_nonneg c3). pose proof (byteOf_lt c3).
  generalize dependent (byteOf c3). intros b3 ? ?.
  tests; cbn [fst]; apply validRune_spec; bits_to_arith; lor_to_add;
    arith.
Qed.

(** ** UTF-8: writing runes and reading them back *)

Lemma string_of_list_ascii_app (l1 l2 : list ascii) :
  string_of_list_ascii (l1 ++ l2)
  = string_of_list_ascii l1 +:+ string_of_list_ascii l2.
Proof.
  induction l1 as [|c l1 IH]; [done|].
  cbn [app string_of_list_ascii]. by rewrite IH.
Qed.

Lemma list_ascii_of_string_app (s1 s2 : string) :
  list_ascii_of_string (s1 +:+ s2)
  = list_ascii_of_string s1 ++ list_ascii_of_string s2.
Proof.
  induction s1 as [|c s1 IH]; [done|].
  change (String c s1 +:+ s2) with (String c (s1 +:+ s2)).
  cbn [list_ascii_of_string app]. by rewrite IH.
Qed.

Lemma encodeRunes_cons (r : rune) (rs : list rune) :
  encodeRunes (r :: rs)
  = string_of_list_ascii (AppendRune r) +:+ encodeRunes rs.
Proof. unfold encodeRunes. cbn. apply string_of_list_ascii_app. Qed.

Lemma encodeRunes_app (rs1 rs2 : list rune) :
  encodeRunes (rs1 ++ rs2) = encodeRunes rs1 +:+ encodeRunes rs2.
Proof.
  unfold encodeRunes. by rewrite fmap_app, concat_app, string_of_list_ascii_app.
Qed.

Lemma rangeRunes_skip (s rest : string) :
  rangeRunes (String.length s) (s +:+ rest) = rangeRunes 0 rest.
Proof. induction s as [|c s IH]; [by destruct rest | exact IH]. Qed.

Lemma length_AppendRune (r : rune) : 1 ≤ length (AppendRune r) ≤ 4.
Proof. unfold AppendRune, encode3. tests; cbn; lia. Qed.

Lemma length_string_of_list_ascii (l : list ascii) :
  String.length (string_of_list_ascii l) = length l.
Proof. induction l as [|c l IH]; [done|]. cbn. by rewrite IH. Qed.

Lemma sanitize_valid (r : rune) : validRune r = true → sanitize r = r.
Proof. unfold sanitize. by intros ->. Qed.

Lemma validRune_sanitize (r : rune) : validRune (sanitize r) = true.
Proof. unfold sanitize. by destruct (validRune r) eqn:Hr. Qed.

Lemma AppendRune_sanitize (r : rune) : AppendRune (sanitize r) = AppendRune r.
Proof.
  unfold sanitize. destruct (validRune r) eqn:Hr; [done|].
  apply not_true_iff_false in Hr. rewrite validRune_spec in Hr.
  change (AppendRune RuneError) with (encode3 RuneError).
  unfold AppendRune. tests; done.
Qed.

(** The runes of a string written by [encodeRunes]. *)
Lemma runes_encodeRunes (rs : list rune) :
  runes (encodeRunes rs) = sanitize <$> rs.
Proof.
  unfold runes. induction rs as [|r rs IH]; [done|].
  rewrite encodeRunes_cons. cbn [fmap list_fmap].
  pose proof (DecodeRuneInString_AppendRune r (encodeRunes rs)) as Hd.
  pose proof (length_AppendRune r) as Hlen.
  rewrite <- (length_string_of_list_ascii (AppendRune r)) in Hlen, Hd.
  destruct (string_of_list_ascii (AppendRune r)) as [|c s1] eqn:Hs1;
    [cbn in Hlen; lia|].
  change (String c s1 +:+ encodeRunes rs)
    with (String c (s1 +:+ encodeRunes rs)) in *.
  cbn [rangeRunes]. rewrite Hd. cbn [String.length].
  replace (S (String.length s1) - 1) with (String.length s1) by lia.
  by rewrite rangeRunes_skip, IH.
Qed.

Lemma rangeRunes_valid (skip : nat) (s : string) :
  Forall (λ r, validRune r = true) (rangeRunes skip s).
Proof.
  revert skip. induction s as [|c s IH]; intros skip; [constructor|].
  destruct skip as [|k]; cbn [rangeRunes]; [|apply IH].
  pose proof (DecodeRuneInString_valid (String c s)) as Hr.
  destruct (DecodeRuneInString (String c s)) as [r width].
  constructor; [exact Hr | apply IH].
Qed.

(** Every rune read from a string is a Unicode scalar value. *)
Lemma runes_valid (s : string) : Forall (λ r, validRune r = true) (runes s).
Proof. apply rangeRunes_valid. Qed.

Lemma fmap_sanitize_valid (rs : list rune) :
  Forall (λ r, validRune r = true) rs → sanitize <$> rs = rs.
Proof.
  induction 1 as [|r rs Hr _ IH]; [done|].
  cbn. by rewrite IH, sanitize_valid.
Qed.

Lemma encodeRunes_sanitize (rs : list rune) :
  encodeRunes (sanitize <$> rs) = encodeRunes rs.
Proof.
  induction rs as [|r rs IH]; [done|].
  cbn [fmap list_fmap]. by rewrite !encodeRunes_cons, AppendRune_sanitize, IH.
Qed.

(** What [strings.Map] writes is well-formed UTF-8. *)
Lemma wellFormedUTF8_encodeRunes (rs : list rune) :
  wellFormedUTF8 (encodeRunes rs).
Proof.
  unfold wellFormedUTF8. by rewrite runes_encodeRunes, encodeRunes_sanitize.
Qed.

(** Reading a string and writing its runes back is idempotent. *)
Lemma runes_encodeRunes_runes (s : string) :
  runes (encodeRunes (runes s)) = runes s.
Proof.
  rewrite runes_encodeRunes. apply fmap_sanitize_valid, runes_valid.
Qed.

(** ** Paths *)

Lemma splitPath_element (cur l : list ascii) :
  Separator ∉ l → splitPath cur l = [reverse cur ++ l].
Proof.
  revert cur. induction l as [|c l IH]; intros cur Hl; cbn [splitPath].
  - by rewrite app_nil_r.
  - apply not_elem_of_cons in Hl as [Hc Hl].
    rewrite decide_False by done. rewrite IH by done.
    by rewrite reverse_cons, <- app_assoc.
Qed.

Lemma splitPath_app (cur l1 l2 : list ascii) :
  splitPath cur (l1 ++ Separator :: l2) = splitPath cur l1 ++ splitPath [] l2.
Proof.
  revert cur. induction l1 as [|c l1 IH]; intros cur; cbn [splitPath app].
  - by rewrite decide_True.
  - case_decide; [|apply IH]. by rewrite IH.
Qed.

Lemma joinPath_snoc (xs : list (list ascii)) (e : list ascii) :
  joinPath (xs ++ [e])
  = match xs with
    | [] => e
    | _ => joinPath xs ++ Separator :: e
    end.
Proof.
  induction xs as [|x xs IH]; [done|].
  cbn [app joinPath]. rewrite IH.
  destruct xs as [|y xs]; [done|].
  cbn [app]. by rewrite <- app_assoc.
Qed.

(** [Clean] of a path whose last element is [lf] ends in [lf], on its own
    or behind a separator. *)
Lemma filepath_Clean_last (l0 lf : list ascii) (l : list ascii) :
  isPathElement lf →
  l = lf ∨ l = l0 ++ Separator :: lf →
  ∃ P, filepath_Clean (string_of_list_ascii l) = string_of_list_ascii (P ++ lf)
       ∧ (P = [] ∨ ∃ P', P = P' ++ [Separator]).
Proof.
  intros (Hsep & Hne & Hdot & Hdd) Hl.
  unfold filepath_Clean. rewrite list_ascii_of_string_of_list_ascii.
  destruct l as [|c l'].
  { destruct Hl as [Hl|Hl]; [by subst lf | by destruct l0]. }
  set (l := c :: l') in *. set (rooted := bool_decide (c = Separator)).
  assert (Hsplit : ∃ E, splitPath [] l = E ++ [lf]).
  { destruct Hl as [->| ->].
    - exists []. by rewrite splitPath_element.
    - exists (splitPath [] l0).
      by rewrite splitPath_app, (splitPath_element [] lf). }
  destruct Hsplit as [E ->]. rewrite foldl_snoc.
  assert (Hstep : ∀ out, cleanStep rooted out lf = lf :: out).
  { intros out. unfold cleanStep. by rewrite !decide_False by done. }
  rewrite !Hstep, !reverse_cons, !joinPath_snoc.
  set (out0 := reverse _).
  destruct rooted.
  - destruct out0 as [|x xs].
    + exists [Separator]. split; [done|]. right. by exists [].
    + exists (Separator :: joinPath (x :: xs) ++ [Separator]). split.
      * f_equal. cbn [app]. by rewrite <- ?app_assoc.
      * right. exists (Separator :: joinPath (x :: xs)). reflexivity.
  - rewrite decide_False by (by destruct out0).
    destruct out0 as [|x xs].
    + exists []. split; [done|]. by left.
    + exists (joinPath (x :: xs) ++ [Separator]). split.
      * f_equal. cbn [app]. by rewrite <- ?app_assoc.
      * right. eexists. reflexivity.
Qed.

Lemma lastElement_app (l1 l2 : list ascii) :
  Separator ∉ l1 →
  l2 = [] ∨ (∃ l2', l2 = Separator :: l2') →
  lastElement (l1 ++ l2) = l1.
Proof.
  intros Hl1 Hl2. induction l1 as [|c l1 IH]; cbn [app lastElement].
  - destruct Hl2 as [->|[l2' ->]]; [done|]. cbn. by rewrite decide_True.
  - apply not_elem_of_cons in Hl1 as [Hc Hl1].
    rewrite decide_False by done. by rewrite IH.
Qed.

(** [Base] of a path that ends in the element [lf] is [lf]. *)
Lemma filepath_Base_last (P lf : list ascii) :
  isPathElement lf →
  P = [] ∨ (∃ P', P = P' ++ [Separator]) →
  filepath_Base (string_of_list_ascii (P ++ lf)) = string_of_list_ascii lf.
Proof.
  intros (Hsep & Hne & _ & _) HP. unfold filepath_Base.
  rewrite decide_False.
  2: { intros Hnil. apply (f_equal list_ascii_of_string) in Hnil.
       rewrite list_ascii_of_string_of_list_ascii in Hnil.
       by destruct P, lf. }
  rewrite list_ascii_of_string_of_list_ascii, reverse_app.
  assert (Hrev : Separator ∉ reverse lf) by (by rewrite elem_of_reverse).
  destruct (reverse lf) as [|c rl] eqn:Hrl.
  { apply (f_equal reverse) in Hrl. rewrite reverse_involutive in Hrl.
    done. }
  apply not_elem_of_cons in Hrev as [Hc Hrev].
  rewrite <- app_comm_cons. cbn [dropTrailingSeparators].
  rewrite !(decide_False (P := c = Separator)) by congruence.
  rewrite app_comm_cons, lastElement_app.
  - rewrite <- Hrl, reverse_involutive. by rewrite decide_False.
  - rewrite not_elem_of_cons. done.
  - destruct HP as [->|[P' ->]]; [by left|right].
    rewrite reverse_app. by eexists.
Qed.

(** [Base] of [Join dir name] is [name], when [name] is one element. *)
Lemma filepath_Base_Join (dir name : string) :
  isPathElement (list_ascii_of_string name) →
  filepath_Base (filepath_Join dir name) = name.
Proof.
  intros Hel. unfold filepath_Join.
  assert (Hname : name ≠ "").
  { intros ->. by destruct Hel as (_ & ? & _). }
  destruct (filepath_Clean_last (list_ascii_of_string dir)
              (list_ascii_of_string name)
              (list_ascii_of_string
                 (if decide (dir = "") then name
                  else dir +:+ String Separator name)) Hel)
    as (P & HP & Hshape).
  { case_decide; [by left|right].
    by rewrite list_ascii_of_string_app. }
  rewrite string_of_list_ascii_of_string in HP.
  case_decide.
  - rewrite decide_False by done. rewrite HP, filepath_Base_last by done.
    apply string_of_list_ascii_of_string.
  - rewrite HP, filepath_Base_last by done.
    apply string_of_list_ascii_of_string.
Qed.

(** ** Names of files *)

Lemma mapRunes_pureMapping (f : rune → rune) (rs : list rune) :
  Forall (λ r, 0 ≤ f r)%Z rs → mapRunes (pureMapping f) tt rs = f <$> rs.
Proof.
  induction 1 as [|r rs Hr _ IH]; [done|].
  cbn [mapRunes pureMapping fmap list_fmap]. rewrite IH.
  by rewrite (proj2 (Z.ltb_ge (f r) 0)) by done.
Qed.

Lemma runes_nil_inv (s : string) : runes s = [] → s = "".
Proof.
  destruct s as [|c s]; [done|]. unfold runes. cbn [rangeRunes].
  by destruct (DecodeRuneInString (String c s)).
Qed.

Lemma isSpecialChar_sanitize (r : rune) :
  isSpecialChar r = false → isSpecialChar (sanitize r) = false.
Proof. unfold sanitize. by destruct (validRune r). Qed.

(** An ASCII byte written by [utf8.AppendRune] is the rune itself: the bytes
    of a longer encoding are all above 127. *)
Lemma AppendRune_ascii (r : rune) (c : ascii) :
  c ∈ AppendRune r → (byteOf c < 128)%Z → r = byteOf c.
Proof.
  intros Hc Hlt. revert Hc. unfold AppendRune, encode3, RuneError. tests.
  all: rewrite ?elem_of_cons, elem_of_nil.
  all: bits_to_arith; lor_to_add.
  all: intros Hc;
    repeat match goal with
           | H : _ ∨ _ |- _ => destruct H as [H|H]
           | H : False |- _ => destruct H
           | H : _ = asciiOf ?z |- _ =>
               apply (f_equal byteOf) in H;
               rewrite byteOf_asciiOf in H by arith
           end.
  all: try arith.
  all: vm_compute in Hc; lia.
Qed.

(** The ASCII bytes of a string written by [encodeRunes] are runes of the
    list. *)
Lemma encodeRunes_ascii (rs : list rune) (c : ascii) :
  c ∈ list_ascii_of_string (encodeRunes rs) → (byteOf c < 128)%Z →
  byteOf c ∈ rs.
Proof.
  intros Hc Hlt. induction rs as [|r rs IH].
  - by apply elem_of_nil in Hc.
  - rewrite encodeRunes_cons, list_ascii_of_string_app in Hc.
    rewrite list_ascii_of_string_of_list_ascii in Hc.
    apply elem_of_app in Hc as [Hc|Hc].
    + rewrite (AppendRune_ascii r c Hc Hlt). by left.
    + right. by apply IH.
Qed.

Lemma lastElement_no_separator (rl : list ascii) :
  Separator ∉ lastElement rl.
Proof.
  induction rl as [|c rl IH]; cbn [lastElement]; [apply not_elem_of_nil|].
  case_decide; [apply not_elem_of_nil|].
  rewrite not_elem_of_cons. split; [congruence | done].
Qed.

Lemma dropTrailingSeparators_nil (rl : list ascii) :
  dropTrailingSeparators rl = [] ↔ Forall (λ c, c = Separator) rl.
Proof.
  induction rl as [|c rl IH]; cbn [dropTrailingSeparators].
  - split; [constructor | done].
  - case_decide as Hc.
    + rewrite IH, Forall_cons. tauto.
    + split; [done|]. by intros [? _]%Forall_cons.
Qed.

Lemma lastElement_dropTrailingSeparators (rl : list ascii) :
  lastElement (dropTrailingSeparators rl) = [] →
  dropTrailingSeparators rl = [].
Proof.
  induction rl as [|c rl IH]; cbn [dropTrailingSeparators]; [done|].
  case_decide as Hc; [done|]. cbn [lastElement]. by rewrite decide_False.
Qed.

(** X12. The file name of a file is one element of a path: it is not empty
    and holds no separator, except that it is ["/"] exactly when the path
    is made of separators only; for the empty path it is ["."]. *)
Theorem FileName_is_one_element (w : World) :
  let path := FilePath (sqlFile w) in
  ∃ name,
    FileName w = Ok (name, w)
    ∧ name ≠ ""
    ∧ (path = "" → name = ".")
    ∧ (name = "/"
       ↔ path ≠ "" ∧ Forall (λ c, c = Separator) (list_ascii_of_string path))
    ∧ (name ≠ "/" → Separator ∉ list_ascii_of_string name).
Proof.
  intros path. exists (filepath_Base path). split; [done|].
  unfold filepath_Base. case_decide as Hp.
  { repeat split; try done.
    - by intros [? _].
    - intros _. cbn. rewrite !not_elem_of_cons. unfold Separator.
      repeat split; [congruence | apply not_elem_of_nil]. }
  set (rl := dropTrailingSeparators _).
  pose proof (lastElement_no_separator rl) as Hsep.
  pose proof (lastElement_dropTrailingSeparators
                (reverse (list_ascii_of_string path))) as Hnil.
  pose proof (dropTrailingSeparators_nil
                (reverse (list_ascii_of_string path))) as Hall.
  fold rl in Hnil, Hall. rewrite Forall_reverse in Hall.
  case_decide as He.
  - apply (f_equal reverse) in He. rewrite reverse_involutive in He.
    cbn in He. split; [done|]. split; [done|]. split; [split|done].
    + intros _. split; [done|]. by apply Hall, Hnil.
    + done.
  - assert (Hstr : string_of_list_ascii (reverse (lastElement rl)) ≠ "").
    { intros Hs. apply He. apply (f_equal list_ascii_of_string) in Hs.
      by rewrite list_ascii_of_string_of_list_ascii in Hs. }
    assert (Hno : Separator ∉ list_ascii_of_string
                    (string_of_list_ascii (reverse (lastElement rl)))).
    { by rewrite list_ascii_of_string_of_list_ascii, elem_of_reverse. }
    split; [done|]. split; [done|]. split; [split|done].
    + intros Heq. rewrite Heq in Hno. exfalso. apply Hno. by left.
    + intros [_ Hs]. exfalso. apply He. apply Hall in Hs.
      by rewrite Hs.
Qed.

Section NamingEffects.
Context {UC : UnicodeCase}.

(** The name that [FileNameForObject] builds before it appends [".sql"]:
    not empty, well-formed, without white space and banned runes. *)
Lemma sanitized_name (objectName : string) :
  let kept := strings_Map (pureMapping removeSpecialChars) tt objectName in
  let name := if decide (kept = "") then "symbols" else kept in
  name ≠ ""
  ∧ wellFormedUTF8 name
  ∧ Forall (λ r, validRune r = true) (runes name)
  ∧ Forall (λ r, isSpecialChar r = false) (runes name).
Proof.
  intros kept name. subst name. case_decide as Hk.
  - assert (Hr : runes "symbols" = [115; 121; 109; 98; 111; 108; 115]%Z)
      by (vm_compute; reflexivity).
    rewrite Hr. repeat apply conj; [done | reflexivity | ..];
      repeat (constructor; [reflexivity|]); constructor.
  - subst kept. unfold strings_Map in *.
    rewrite mapRunes_removeSpecialChars in * by apply runes_nonneg.
    repeat apply conj; [done|apply wellFormedUTF8_encodeRunes|apply runes_valid|].
    rewrite runes_encodeRunes, Forall_fmap.
    apply Forall_forall. intros r Hr.
    apply list_elem_of_filter in Hr as [Hr _]. cbn.
    by apply isSpecialChar_sanitize.
Qed.

(** [NormalizeFileName] of such a name is such a name. *)
Lemma normalized_name (name : string) (lowerCase : bool) :
  (lowerCase = true → lowerCaseKeepsNames) →
  name ≠ "" →
  wellFormedUTF8 name →
  Forall (λ r, validRune r = true) (runes name) →
  Forall (λ r, isSpecialChar r = false) (runes name) →
  NormalizeFileName name lowerCase ≠ ""
  ∧ wellFormedUTF8 (NormalizeFileName name lowerCase)
  ∧ Forall (λ r, isSpecialChar r = false)
           (runes (NormalizeFileName name lowerCase)).
Proof.
  intros Hlow Hne Hwf Hv Hsp.
  destruct lowerCase; cbn [NormalizeFileName]; [|done].
  specialize (Hlow eq_refl).
  unfold strings_ToLower, strings_Map.
  rewrite mapRunes_pureMapping.
  2: { rewrite Forall_forall in Hv, Hsp. apply Forall_forall.
       intros r Hr. by apply Hlow; [apply Hv | apply Hsp]. }
  repeat split; [|apply wellFormedUTF8_encodeRunes|].
  - intros Hempty. apply (f_equal runes) in Hempty.
    rewrite runes_encodeRunes in Hempty. cbn in Hempty.
    apply fmap_nil_inv, fmap_nil_inv, runes_nil_inv in Hempty. done.
  - rewrite runes_encodeRunes, !Forall_fmap.
    rewrite Forall_forall in Hv, Hsp. apply Forall_forall.
    intros r Hr. cbn. apply isSpecialChar_sanitize.
    by apply Hlow; [apply Hv | apply Hsp].
Qed.

(** X13. The file name for an object is a stem followed by [".sql"]; the
    stem is never empty, is well-formed UTF-8 whatever bytes the object
    name holds, and has no white space and no banned rune.  With
    [lowerCase] this asks of the case tables that lower-casing turns no rune
    into such a rune. *)
Theorem FileNameForObject_stem (objectName : string) (lowerCase : bool) :
  (lowerCase = true → lowerCaseKeepsNames) →
  ∃ stem,
    FileNameForObject objectName lowerCase = stem +:+ ".sql"
    ∧ stem ≠ ""
    ∧ wellFormedUTF8 stem
    ∧ Forall (λ r, isSpecialChar r = false) (runes stem).
Proof.
  intros Hlow. unfold FileNameForObject.
  destruct (sanitized_name objectName) as (Hne & Hwf & Hv & Hsp).
  set (name := if decide _ then _ else _) in *.
  exists (NormalizeFileName name lowerCase). split; [done|].
  by apply normalized_name.
Qed.

(** No byte of the file name for an object is a path separator, and the
    name is neither [.] nor [..]. *)
Lemma FileNameForObject_element (objectName : string) (lowerCase : bool) :
  (lowerCase = true → lowerCaseKeepsNames) →
  isPathElement (list_ascii_of_string (FileNameForObject objectName lowerCase)).
Proof.
  intros Hlow. unfold isPathElement.
  unfold FileNameForObject.
  destruct (sanitized_name objectName) as (Hne0 & Hwf0 & Hv0 & Hsp0).
  set (name := if decide _ then _ else _) in *.
  destruct (normalized_name name lowerCase Hlow Hne0 Hwf0 Hv0 Hsp0)
    as (Hne & Hwf & Hsp).
  set (stem := NormalizeFileName name lowerCase) in *.
  rewrite list_ascii_of_string_app.
  assert (Hstem : list_ascii_of_string stem ≠ []).
  { intros Hnil. apply Hne.
    by rewrite <- (string_of_list_ascii_of_string stem), Hnil. }
  repeat split.
  - rewrite elem_of_app. intros [Hin|Hin].
    + rewrite <- Hwf in Hin. apply encodeRunes_ascii in Hin; [|done].
      rewrite Forall_forall in Hsp. by specialize (Hsp _ Hin).
    + cbn in Hin. rewrite !elem_of_cons, elem_of_nil in Hin.
      unfold Separator in Hin. intuition congruence.
  - by destruct (list_ascii_of_string stem).
  - intros H. apply (f_equal length) in H. rewrite length_app in H.
    destruct (list_ascii_of_string stem); [done | cbn in H; lia].
  - intros H. apply (f_equal length) in H. rewrite length_app in H.
    destruct (list_ascii_of_string stem); [done | cbn in H; lia].
Qed.

(** X14. The file at [PathForObject dirPath objectName] has the file name
    [FileNameForObject objectName lowerCase], where [lowerCase] is set
    unless the probe found the file system case-sensitive: what is left of
    an object name cannot lead out of [dirPath], whatever separators and
    dots the name holds. *)
Theorem FileName_of_PathForObject (os : OS) (dirPath objectName : string)
    (w : World) :
  lowerCaseKeepsNames →
  FilePath (sqlFile w) = PathForObject os dirPath objectName →
  FileName w
  = Ok (FileNameForObject objectName
          (negb (IsCaseSensitiveFilesystem os dirPath).1), w).
Proof.
  intros Hlow Hpath. unfold FileName, mbind, M_bind, getFile, mret, M_ret.
  rewrite Hpath. unfold PathForObject.
  destruct (IsCaseSensitiveFilesystem os dirPath) as [caseSensitive err].
  cbn [fst]. rewrite filepath_Base_Join; [done|].
  by apply FileNameForObject_element.
Qed.

Lemma mapRunes_caseFlip_done (rs : list rune) :
  Forall (λ r, 0 ≤ r)%Z rs → mapRunes caseFlip false rs = rs.
Proof.
  induction 1 as [|r rs Hr _ IH]; [done|].
  cbn [mapRunes caseFlip]. rewrite IH.
  by rewrite (proj2 (Z.ltb_ge r 0)) by done.
Qed.

Lemma caseFlip_reversible (r : rune) :
  caseReversible r = true → caseFlip true r = (caseFlipped r, false).
Proof.
  unfold caseReversible, caseFlip, caseFlipped.
  destruct (unicode_IsLower r); [by intros ->|].
  destruct (unicode_IsUpper r); [by intros ->|done].
Qed.

Lemma caseFlip_not_reversible (r : rune) :
  caseReversible r = false → caseFlip true r = (r, true).
Proof.
  unfold caseReversible, caseFlip.
  destruct (unicode_IsLower r); [by intros ->|].
  destruct (unicode_IsUpper r); [by intros ->|done].
Qed.

Lemma mapRunes_caseFlip_first (pre post : list rune) (r : rune) :
  Forall (λ x, 0 ≤ x)%Z (pre ++ r :: post) →
  Forall (λ x, caseReversible x = false) pre →
  caseReversible r = true →
  (0 ≤ caseFlipped r)%Z →
  mapRunes caseFlip true (pre ++ r :: post) = pre ++ caseFlipped r :: post.
Proof.
  intros Hnn Hpre Hr Hf. induction Hpre as [|x pre Hx _ IH].
  - cbn [app mapRunes] in *. rewrite caseFlip_reversible by done.
    apply Forall_cons in Hnn as [_ Hnn].
    rewrite mapRunes_caseFlip_done by done.
    by rewrite (proj2 (Z.ltb_ge _ 0)) by done.
  - cbn [app mapRunes] in *. apply Forall_cons in Hnn as [Hx0 Hnn].
    rewrite caseFlip_not_reversible by done. rewrite IH by done.
    by rewrite (proj2 (Z.ltb_ge x 0)) by done.
Qed.

Lemma validRune_nonneg (r : rune) : validRune r = true → (0 ≤ r)%Z.
Proof. rewrite validRune_spec. lia. Qed.

(** X15. [genCaseTestFilename] changes one rune and no other: the first rune
    of the name that can be case-flipped and flipped back is replaced by
    its counterpart of the other case; the runes before it and all runes
    behind it, case-reversible or not, are the runes of the name.  The
    result is another name whenever the counterpart is another rune. *)
Theorem genCaseTestFilename_flips_first (str : string) (pre post : list rune)
    (r : rune) :
  runes str = pre ++ r :: post →
  Forall (λ x, caseReversible x = false) pre →
  caseReversible r = true →
  validRune (caseFlipped r) = true →
  runes (genCaseTestFilename str) = pre ++ caseFlipped r :: post
  ∧ (caseFlipped r ≠ r → genCaseTestFilename str ≠ str).
Proof.
  intros Hstr Hpre Hr Hv.
  assert (Hrunes : runes (genCaseTestFilename str)
                   = pre ++ caseFlipped r :: post).
  { pose proof (runes_valid str) as Hvalid. rewrite Hstr in Hvalid.
    unfold genCaseTestFilename, strings_Map. rewrite Hstr.
    rewrite mapRunes_caseFlip_first; [|by rewrite <- Hstr; apply runes_nonneg
                                      |done|done|by apply validRune_nonneg].
    rewrite runes_encodeRunes. apply fmap_sanitize_valid.
    apply Forall_app in Hvalid as [Hv1 Hv2].
    apply Forall_cons in Hv2 as [_ Hv2].
    apply Forall_app. split; [done|]. by constructor. }
  split; [exact Hrunes|].
  intros Hne Heq. rewrite Heq, Hstr in Hrunes.
  apply app_inv_head in Hrunes. by injection Hrunes as Hrunes.
Qed.

(** X16. [NormalizeFileName] is idempotent: a normalized name is its own
    normal form, so it can stand for the file as the key of a map.  With
    [lowerCase] this asks of the case tables that lower-casing is
    idempotent on scalar values. *)
Theorem NormalizeFileName_idempotent (name : string) (lowerCase : bool) :
  (lowerCase = true → lowerCaseIdempotent) →
  NormalizeFileName (NormalizeFileName name lowerCase) lowerCase
  = NormalizeFileName name lowerCase.
Proof.
  intros Hlow. destruct lowerCase; cbn [NormalizeFileName]; [|done].
  specialize (Hlow eq_refl). unfold strings_ToLower, strings_Map.
  assert (Hmap : ∀ rs, Forall (λ r, validRune r = true) rs →
            mapRunes (pureMapping unicode_ToLower) tt rs
            = unicode_ToLower <$> rs).
  { intros rs Hrs. apply mapRunes_pureMapping.
    eapply Forall_impl; [exact Hrs|]. intros r Hv. cbn.
    by apply validRune_nonneg, Hlow. }
  rewrite (Hmap (runes name)) by apply runes_valid.
  rewrite runes_encodeRunes.
  assert (Hlv : Forall (λ r, validRune r = true)
                       (unicode_ToLower <$> runes name)).
  { rewrite Forall_fmap. eapply Forall_impl; [apply runes_valid|].
    intros r Hv. cbn. by apply Hlow. }
  rewrite fmap_sanitize_valid by done. rewrite Hmap by done.
  f_equal. rewrite <- list_fmap_compose.
  apply Forall_fmap_ext. eapply Forall_impl; [apply runes_valid|].
  intros r Hv. cbn. by apply Hlow.
Qed.

(** X17. [PathForObject] drops the error of the probe: when stat of
    [dirPath] fails, as for every outcome but a case-sensitive file system,
    the file name is lower-cased. *)
Theorem PathForObject_ignores_probe_error (os : OS)
    (dirPath objectName : string) :
  let probe := IsCaseSensitiveFilesystem os dirPath in
  PathForObject os dirPath objectName
  = filepath_Join dirPath (FileNameForObject objectName (negb probe.1))
  ∧ (∀ err, statResult os dirPath = inr err →
            probe.2 ≠ None
            ∧ PathForObject os dirPath objectName
              = filepath_Join dirPath (FileNameForObject objectName true)).
Proof.
  intros probe. subst probe. unfold PathForObject. split.
  - by destruct (IsCaseSensitiveFilesystem os dirPath).
  - intros err Herr. unfold IsCaseSensitiveFilesystem. by rewrite Herr.
Qed.

(** X18. [Exists] asks the operating system once and changes nothing: it
    returns [(true, nil)] when stat succeeds and [(false, nil)] when stat
    fails with a not-found error; any other error of stat is returned as
    it is, not wrapped, with [false].  Whenever [Exists] does not return
    [true], the probe [IsCaseSensitiveFilesystem] of the same path returns
    an error. *)
Theorem Exists_outcomes (os : OS) (w : World) :
  let path := FilePath (sqlFile w) in
  ∃ (found : bool) (err : option error),
    Exists os w = Ok ((found, err), w)
    ∧ (found = true ↔ ∃ info, statResult os path = inl info)
    ∧ (found = true → err = None)
    ∧ (∀ e, statResult os path = inr e →
            err = if os_IsNotExist e then None else Some e)
    ∧ (found = false → (IsCaseSensitiveFilesystem os path).2 ≠ None).
Proof.
  intros path. unfold Exists, mbind, M_bind, getFile, mret, M_ret.
  fold path. unfold IsCaseSensitiveFilesystem.
  destruct (statResult os path) as [info|e] eqn:Hstat.
  - exists true, None. repeat split; try done. by exists info.
  - destruct (os_IsNotExist e) eqn:Hne.
    + exists false, None. repeat split; try done.
      * by intros [info ?].
      * intros e' [= <-]. by rewrite Hne.
    + exists false, (Some e). repeat split; try done.
      * by intros [info ?].
      * intros e' [= <-]. by rewrite Hne.
Qed.

End NamingEffects.

(** ** The properties on concrete files *)

Lemma parseDelimiterCommand_slashes :
  parseDelimiterCommand ("DELIMITER " +:+ "//" +:+ nl) = Some "//".
Proof. reflexivity. Qed.

Lemma parseDelimiterCommand_semicolon :
  parseDelimiterCommand ("DELIMITER " +:+ ";" +:+ nl) = Some ";".
Proof. reflexivity. Qed.

(** A call made on a concrete world returns, and leads to [after]. *)
Ltac call_returns := vm_compute; reflexivity.

Lemma withTrigger_valid :
  validPtrs (heap withTrigger) (Statements (sqlFile withTrigger)).
Proof. vm_compute. repeat constructor; by eexists. Qed.

(** Scenario C: after the trigger is removed, [Write] removes the file and
    returns 0. *)
Lemma Write_deletes_or_writes_witness :
  ∃ n err w',
    Write quietOS withoutTrigger = Ok ((n, err), w')
    ∧ syscalls w' = [SysRemove "t.sql"] ∧ n = 0%Z.
Proof.
  destruct (Write_deletes_or_writes quietOS withoutTrigger)
    as (n & err & w' & Heq & Hiff & _).
  { vm_compute. repeat constructor; by eexists. }
  exists n, err, w'. split; [exact Heq|].
  apply Hiff. vm_compute.
  repeat constructor; (eexists; split; [reflexivity | by right]).
Defined.


Lemma withTrigger_reachable (allowed : World → Call → Prop) :
  allowed emptyFile (CallAddStatement (Some 1%positive)) →
  reachableBy (SM := refStatementMethods) allowed withTrigger.
Proof.
  intros Hallowed.
  apply (reachable_call _ emptyFile (CallAddStatement (Some 1%positive)));
    [by apply reachable_empty | exact Hallowed | call_returns].
Qed.

(** The delimiters of Scenario B are as the commands declare them. *)
Lemma reachable_delimiters_as_declared_witness :
  reachableBy (SM := refStatementMethods) disciplined withTrigger
  ∧ statementDelimitersAsDeclared (TK := refTokenizer) withTrigger.
Proof.
  assert (Hreach : reachableBy (SM := refStatementMethods) disciplined
                     withTrigger).
  { apply withTrigger_reachable. split; [by eexists|]. apply not_elem_of_nil. }
  split; [exact Hreach|].
  exact (reachable_delimiters_as_declared (SM := refStatementMethods)
           (TK := refTokenizer) parseDelimiterCommand_slashes
           parseDelimiterCommand_semicolon withTrigger Hreach).
Defined.

(** C3 fails as it is stated: in Scenario B the first statement of the file
    is the DELIMITER // command, whose own delimiter is the NUL byte that
    [makeDelimiterCommand] gives it, and not [";"]. *)
Lemma delimiters_as_declared_counterexample :
  reachableBy (SM := refStatementMethods) anyCall withTrigger
  ∧ ¬ delimitersAsDeclared (TK := refTokenizer) withTrigger.
Proof.
  split; [by apply withTrigger_reachable|].
  intros Hall.
  specialize (Hall 0 (Some 3%positive) (delimiterCommand "//" "" "t.sql")
                eq_refl eq_refl).
  vm_compute in Hall. discriminate Hall.
Qed.

(** The restriction of [RemoveStatement] to statements that are not
    commands is needed: without the DELIMITER // command in front of it, the
    trigger has a delimiter that no command declares. *)
Example removing_a_command_breaks_delimiters :
  reachableBy (SM := refStatementMethods) anyCall withoutOpeningCommand
  ∧ ¬ statementDelimitersAsDeclared (TK := refTokenizer)
        withoutOpeningCommand.
Proof.
  split.
  - apply (reachable_call _ withTrigger
             (CallRemoveStatement (Some 3%positive)));
      [by apply (withTrigger_reachable anyCall) | exact I | call_returns].
  - intros Hall.
    assert (Hi : Statements (sqlFile withoutOpeningCommand) !! 0
                 = Some (Some 1%positive)) by (vm_compute; reflexivity).
    assert (Hs : load (heap withoutOpeningCommand) (Some 1%positive)
                 = Some (mkStatement "t.sql"
                           (Text trigger +:+ "//" +:+ nl)
                           StatementTypeOther "//" "" true))
      by (vm_compute; reflexivity).
    specialize (Hall _ _ _ Hi Hs ltac:(discriminate)).
    vm_compute in Hall. discriminate Hall.
Qed.

(** So is the restriction of [AddStatement] to statements that are not yet
    in the file: a statement that is there twice has one delimiter for two
    places. *)
Example adding_again_breaks_delimiters :
  reachableBy (SM := refStatementMethods) anyCall tableAddedAgain
  ∧ ¬ statementDelimitersAsDeclared (TK := refTokenizer) tableAddedAgain.
Proof.
  split.
  - unfold tableAddedAgain. cbn [foldl].
    repeat (match goal with
            | |- reachableBy _ (after ?c ?w) =>
                apply (reachable_call _ w c); [| exact I | call_returns]
            end).
    by apply reachable_empty.
  - intros Hall.
    assert (Hi : Statements (sqlFile tableAddedAgain) !! 1
                 = Some (Some 2%positive)) by (vm_compute; reflexivity).
    assert (Hs : load (heap tableAddedAgain) (Some 2%positive)
                 = Some (mkStatement "t.sql"
                           (Text createTable +:+ "//;" +:+ nl)
                           StatementTypeOther ";" "" false))
      by (vm_compute; reflexivity).
    specialize (Hall _ _ _ Hi Hs ltac:(discriminate)).
    vm_compute in Hall. discriminate Hall.
Qed.


(** The trigger of Scenario B is edited in place. *)
Lemma EditStatementText_in_place_witness :
  ∃ a w',
    Some 1%positive = Some a
    ∧ EditStatementText (SM := refStatementMethods) (Some 1%positive)
        "CREATE TRIGGER t BEFORE INSERT ON a FOR EACH ROW SET @x = 2" false
        withTrigger
      = Ok (tt, w')
    ∧ Statements (sqlFile w') = Statements (sqlFile withTrigger).
Proof.
  assert (Hs : load (heap withTrigger) (Some 1%positive) = Some triggerInFile)
    by (vm_compute; reflexivity).
  destruct (EditStatementText_in_place (SM := refStatementMethods)
              withTrigger (Some 1%positive) triggerInFile
              "CREATE TRIGGER t BEFORE INSERT ON a FOR EACH ROW SET @x = 2"
              false)
    as (a & w' & Ha & Heq & Hss & _);
    [vm_compute; apply list_elem_of_further, list_elem_of_here
    | exact Hs | by left |].
  by exists a, w'.
Defined.

(** The table is added to the file of Scenario B: the closing DELIMITER ;
    command is pruned, and what comes before the insertion point is the
    trigger. *)
Lemma AddStatement_prunes_trailing_commands_witness :
  ∃ w' kept pruned pre post,
    AddStatement (SM := refStatementMethods) (Some 2%positive) withTrigger
    = Ok (tt, w')
    ∧ Statements (sqlFile withTrigger) = kept ++ pruned
    ∧ Forall (isCommandAt (heap withTrigger)) pruned
    ∧ Statements (sqlFile w') = kept ++ pre ++ [Some 2%positive] ++ post
    ∧ (∀ p, last kept = Some p → notCommandAt (heap w') p).
Proof.
  destruct (AddStatement_prunes_trailing_commands (SM := refStatementMethods)
              withTrigger (Some 2%positive))
    as (w' & kept & pruned & pre & post & Heq & Hss & Hpr & Hss' & _ & Hlast);
    [exact withTrigger_valid | by eexists |].
  exists w', kept, pruned, pre, post. repeat split; try done.
  intros p Hp. by apply Hlast.
Defined.

(** The table is not in the file of Scenario B. *)
Lemma not_found_panics_witness :
  EditStatementText (SM := refStatementMethods) (Some 2%positive) "x" false
    withTrigger
  = Panic "Statement previously at  not actually found in file"
  ∧ RemoveStatement (SM := refStatementMethods) (Some 2%positive) withTrigger
    = Panic "Statement previously at  not actually found in file".
Proof.
  assert (Hss : Statements (sqlFile withTrigger)
                = [Some 3%positive; Some 1%positive; Some 4%positive])
    by (vm_compute; reflexivity).
  assert (Hnot : Some 2%positive ∉ Statements (sqlFile withTrigger)).
  { rewrite Hss, !not_elem_of_cons.
    repeat split; try discriminate. apply not_elem_of_nil. }
  assert (Hl : load (heap withTrigger) (Some 2%positive) = Some createTable)
    by (vm_compute; reflexivity).
  pose proof (not_found_panics (SM := refStatementMethods) withTrigger
                (Some 2%positive) "x" false Hnot) as Hp.
  cbv zeta in Hp. rewrite Hl in Hp. exact Hp.
Defined.

(** The directory ["123"], named without a trailing separator. *)
Lemma probe_without_reversible_rune_witness :
  genCaseTestFilename (UC := asciiCase) (filepath_Base "123")
  = filepath_Base "123"
  ∧ IsCaseSensitiveFilesystem (UC := asciiCase) numericDirOS "123"
    = (false, None).
Proof.
  apply (probe_without_reversible_rune (UC := asciiCase) numericDirOS "123"
           (mkFileInfo 2049 131)).
  - reflexivity.
  - vm_compute. repeat constructor.
  - reflexivity.
  - reflexivity.
Defined.

(** C9 fails as it is stated: for the same directory named ["123/"], the
    base name is ["123"] and stat of [dir] succeeds; whatever the case
    tables, if ["123"] has no case-reversible rune (as with the ASCII
    tables) it is unchanged by [genCaseTestFilename], but the alternate path
    is ["123/123"], which does not exist, and the probe returns
    [(true, nil)]. *)
Lemma probe_trailing_separator_counterexample :
  filepath_Base "123/" = "123"
  ∧ filepath_Join (filepath_Dir "123/") "123" = "123/123"
  ∧ statResult numericDirOS "123/" = inl (mkFileInfo 2049 131)
  ∧ Forall (λ r, caseReversible (UC := asciiCase) r = false) (runes "123")
  ∧ (∀ UC : UnicodeCase,
       Forall (λ r, caseReversible r = false) (runes "123") →
       genCaseTestFilename "123" = "123"
       ∧ IsCaseSensitiveFilesystem numericDirOS "123/" = (true, None)).
Proof.
  repeat apply conj; try reflexivity.
  - vm_compute. repeat constructor.
  - intros UC Hnone.
    assert (Hwf : wellFormedUTF8 "123") by reflexivity.
    pose proof (genCaseTestFilename_unchanged "123" Hwf Hnone) as Hgen.
    split; [exact Hgen|]. unfold IsCaseSensitiveFilesystem.
    change (filepath_Base "123/") with "123". rewrite Hgen.
    reflexivity.
Qed.

(** C10 fails as it is stated: the ['!'] of ["My Table!"] is kept, so the
    file name is not ["MyTable.sql"], whatever the case tables. *)
Lemma FileNameForObject_counterexample :
  FileNameForObject (UC := asciiCase) "My Table!" false = "MyTable!.sql"
  ∧ (∀ UC : UnicodeCase, FileNameForObject "My Table!" false ≠ "MyTable.sql").
Proof.
  split; [reflexivity|]. intros UC.
  replace (FileNameForObject "My Table!" false) with "MyTable!.sql"
    by (symmetry; apply FileNameForObject_example).
  discriminate.
Qed.

(** ** The further properties on concrete files *)

Lemma emptyFile_withoutTrailingCommands :
  withoutTrailingCommands emptyFile [].
Proof. exists []. repeat split; [constructor | by intros p [=]]. Qed.


(** The trigger is removed from the file of Scenario B. *)
Lemma RemoveStatement_removes_first_witness :
  ∃ pre post w',
    Statements (sqlFile withTrigger) = pre ++ Some 1%positive :: post
    ∧ RemoveStatement (SM := refStatementMethods) (Some 1%positive)
        withTrigger = Ok (tt, w')
    ∧ Statements (sqlFile w') = pre ++ post.
Proof.
  destruct (RemoveStatement_removes_first (SM := refStatementMethods)
              withTrigger (Some 1%positive))
    as (pre & post & w' & Hss & _ & Heq & Hss' & _);
    [vm_compute; apply list_elem_of_further, list_elem_of_here|].
  exists pre, post, w'. repeat apply conj; assumption.
Defined.

(** The table is added to the new file. *)
Lemma AddStatement_simple_at_default_witness :
  ∃ w', AddStatement (SM := refStatementMethods) (Some 2%positive) emptyFile
        = Ok (tt, w')
        ∧ Statements (sqlFile w') = [Some 2%positive].
Proof.
  destruct (AddStatement_simple_at_default (SM := refStatementMethods)
              emptyFile 2%positive createTable [])
    as (w' & Heq & Hss & _);
    [exact emptyFile_withoutTrailingCommands | reflexivity
    | apply not_elem_of_nil | reflexivity | reflexivity |].
  exists w'. repeat apply conj; assumption.
Defined.




(** The table, added to the new file, is in the file [t.sql]. *)
Lemma AddStatement_adopts_context_witness :
  ∃ w' s',
    AddStatement (SM := refStatementMethods) (Some 2%positive) emptyFile
    = Ok (tt, w')
    ∧ heap w' !! 2%positive = Some s'
    ∧ File s' = "t.sql"
    ∧ DefaultDatabase s' = "".
Proof.
  destruct (AddStatement_adopts_context (SM := refStatementMethods)
              emptyFile 2%positive createTable [])
    as (w' & s' & Heq & Hs' & Hf & Hdb & _);
    [exact emptyFile_withoutTrailingCommands | reflexivity
    | apply not_elem_of_nil |].
  exists w', s'. repeat apply conj; assumption.
Defined.


(** The trigger is added to the new file and removed again: the two
    DELIMITER commands stay. *)
Lemma AddStatement_then_RemoveStatement_witness :
  ∃ w1 w2 cmds,
    AddStatement (SM := refStatementMethods) (Some 1%positive) emptyFile
    = Ok (tt, w1)
    ∧ RemoveStatement (SM := refStatementMethods) (Some 1%positive) w1
      = Ok (tt, w2)
    ∧ Statements (sqlFile w2) = cmds
    ∧ cmds ≠ [].
Proof.
  destruct (AddStatement_then_RemoveStatement (SM := refStatementMethods)
              emptyFile 1%positive trigger [])
    as (w1 & w2 & cmds & Heq1 & Heq2 & Hss & _ & Hiff & _);
    [exact emptyFile_withoutTrailingCommands | reflexivity
    | apply not_elem_of_nil |].
  exists w1, w2, cmds. repeat split; try done.
  intros Hnil. apply Hiff in Hnil as [Hc _]. discriminate Hc.
Defined.

(** The table is made compound, and then simple again. *)
Lemma EditStatementText_brackets_once_witness :
  ∃ w1 w2,
    EditStatementText (SM := refStatementMethods) (Some 2%positive)
      "CREATE PROCEDURE p() BEGIN SELECT 1; END" true withTable
    = Ok (tt, w1)
    ∧ EditStatementText (SM := refStatementMethods) (Some 2%positive)
        "CREATE TABLE a (id int)" false w1
      = Ok (tt, w2)
    ∧ length (Statements (sqlFile w1)) = 3
    ∧ Statements (sqlFile w2) = Statements (sqlFile w1).
Proof.
  assert (Hs : heap withTable !! 2%positive = Some tableInFile)
    by (vm_compute; reflexivity).
  destruct (EditStatementText_brackets_once (SM := refStatementMethods)
              withTable 2%positive tableInFile
              "CREATE PROCEDURE p() BEGIN SELECT 1; END"
              "CREATE TABLE a (id int)" false)
    as (w1 & w2 & Heq1 & Heq2 & Hlen & Hss & _);
    [vm_compute; apply list_elem_of_here | exact Hs | reflexivity |].
  exists w1, w2. repeat apply conj; assumption.
Defined.

(** Scenario B: the call that adds the trigger. *)
Lemma mutators_work_in_memory_witness :
  Dirty (sqlFile withTrigger) = true
  ∧ syscalls withTrigger = syscalls emptyFile
  ∧ FilePath (sqlFile withTrigger) = FilePath (sqlFile emptyFile)
  ∧ typesKept (heap emptyFile) (heap withTrigger).
Proof.
  apply (mutators_work_in_memory (SM := refStatementMethods)
           (CallAddStatement (Some 1%positive)) emptyFile withTrigger).
  vm_compute. reflexivity.
Defined.

(** [Write] returns on the file of Scenario B. *)
Lemma Write_returns_on_reachable_witness :
  validPtrs (heap withTrigger) (Statements (sqlFile withTrigger))
  ∧ ∃ n err w', Write quietOS withTrigger = Ok ((n, err), w').
Proof.
  apply (Write_returns_on_reachable (SM := refStatementMethods) quietOS
           withTrigger).
  by apply withTrigger_reachable.
Defined.

(** The table is added to the file of Scenario B. *)
Lemma AddStatement_ends_in_default_delimiter_witness :
  ∃ w', AddStatement (SM := refStatementMethods) (Some 2%positive)
          withTrigger = Ok (tt, w')
        ∧ delimiterInEffect (TK := refTokenizer) (heap w')
            (Statements (sqlFile w')) = ";".
Proof.
  apply (AddStatement_ends_in_default_delimiter (SM := refStatementMethods)
           (TK := refTokenizer) parseDelimiterCommand_slashes
           parseDelimiterCommand_semicolon withTrigger 2%positive
           createTable).
  - apply withTrigger_reachable. split; [by eexists|].
    apply not_elem_of_nil.
  - reflexivity.
  - assert (Hss : Statements (sqlFile withTrigger)
                  = [Some 3%positive; Some 1%positive; Some 4%positive])
      by (vm_compute; reflexivity).
    rewrite Hss, !not_elem_of_cons.
    repeat split; try discriminate. apply not_elem_of_nil.
  - discriminate.
Defined.

Lemma isSpecialChar_tests (r : rune) :
  isSpecialChar r = unicode_IsSpace r || existsb (Z.eqb r) banned.
Proof.
  unfold isSpecialChar. f_equal.
  induction banned as [|b l IH]; [done|]. cbn [existsb].
  destruct (Z.eqb_spec r b) as [->|Hne].
  - by rewrite bool_decide_eq_true_2 by left.
  - rewrite <- IH. apply bool_decide_ext. rewrite elem_of_cons. tauto.
Qed.

Lemma asciiCase_keeps_names : lowerCaseKeepsNames (UC := asciiCase).
Proof.
  intros r Hv Hsp. apply validRune_spec in Hv. cbn [unicode_ToLower asciiCase].
  unfold inRange.
  destruct (Z.leb_spec 65 r), (Z.leb_spec r 90); cbn [andb];
    try (split; [lia | done]).
  split; [lia|]. rewrite isSpecialChar_tests.
  unfold unicode_IsSpace, inRange. cbn [existsb banned].
  repeat match goal with
         | |- context [runeOf ?c] =>
             let v := eval vm_compute in (runeOf c) in
             change (runeOf c) with v
         end.
  tests. reflexivity.
Qed.

Lemma asciiCase_idempotent : lowerCaseIdempotent (UC := asciiCase).
Proof.
  intros r Hv. apply validRune_spec in Hv. cbn [unicode_ToLower asciiCase].
  unfold inRange. tests; (split; [apply validRune_spec; lia | reflexivity]).
Qed.

(** The file name for the object ["My Table!"], lower-cased. *)
Lemma FileNameForObject_stem_witness :
  ∃ stem,
    FileNameForObject (UC := asciiCase) "My Table!" true = stem +:+ ".sql"
    ∧ stem ≠ ""
    ∧ wellFormedUTF8 stem
    ∧ Forall (λ r, isSpecialChar r = false) (runes stem).
Proof.
  apply (FileNameForObject_stem (UC := asciiCase) "My Table!" true).
  intros _. exact asciiCase_keeps_names.
Defined.

(** The first letter of ["1ab"] is flipped, and only this one. *)
Lemma genCaseTestFilename_flips_first_witness :
  runes (genCaseTestFilename (UC := asciiCase) "1ab") = [49; 65; 98]%Z
  ∧ genCaseTestFilename (UC := asciiCase) "1ab" ≠ "1ab".
Proof.
  destruct (genCaseTestFilename_flips_first (UC := asciiCase) "1ab"
              [49%Z] [98%Z] 97%Z) as [Hrunes Hne].
  - reflexivity.
  - repeat constructor.
  - reflexivity.
  - reflexivity.
  - split; [exact Hrunes|]. apply Hne. discriminate.
Defined.

(** The lower-case form of ["MyTable.sql"] is its own lower-case form. *)
Lemma NormalizeFileName_idempotent_witness :
  NormalizeFileName (UC := asciiCase)
    (NormalizeFileName (UC := asciiCase) "MyTable.sql" true) true
  = NormalizeFileName (UC := asciiCase) "MyTable.sql" true.
Proof.
  apply (NormalizeFileName_idempotent (UC := asciiCase) "MyTable.sql" true).
  intros _. exact asciiCase_idempotent.
Defined.

(** The file for the object ["My Table!"] in the directory ["123"], on a
    file system that the probe does not find case-sensitive. *)
Lemma FileName_of_PathForObject_witness :
  FileName fileForMyTable = Ok ("mytable!.sql", fileForMyTable).
Proof.
  assert (Hn : FileNameForObject (UC := asciiCase) "My Table!"
                 (negb (IsCaseSensitiveFilesystem (UC := asciiCase)
                          numericDirOS "123").1)
               = "mytable!.sql") by (vm_compute; reflexivity).
  rewrite <- Hn.
  apply (FileName_of_PathForObject (UC := asciiCase) numericDirOS "123"
           "My Table!" fileForMyTable asciiCase_keeps_names).
  unfold fileForMyTable. cbn [sqlFile FilePath]. reflexivity.
Defined.
